(** * Kakeibo Lens: a shallow embedding of the ledger logic

    The development follows the TypeScript sources:

    - [types/kakeibo.ts]          the data model;
    - [lib/storage.ts]            the entry and category stores, CSV export;
    - [lib/ai-analysis.ts]        [normalizeCategoryName];
    - [app/(tabs)/index.tsx]      [calculateMonthlySummary] (home screen);
    - [app/(tabs)/analytics.tsx]  [getCategoryData], [getMonthlyTrendData];
    - [app/(tabs)/scan.tsx]       [analyzeImage] (ingestion).

    Conventions.  A JavaScript string is a [string] holding its UTF-8
    encoding.  An amount is an integer number of yen, a [Z], and a sum of
    amounts is the exact sum: it is the double the source computes as long
    as the amounts are integers and the sums stay within the safe
    integers, which the theorems relating sums to quotients assume
    ([SafeAmounts]).  A quotient or product of numbers is the rational
    value of the double the source computes: the exact result rounded to
    binary64, ties to even ([JS.roundDouble]).  The clock is read where
    the source reads it: once per call in [updateEntry], once per default
    category in [loadCategories].  A JavaScript
    [Map], whose iteration order is insertion order, is an association list;
    [AsyncStorage] is a record of the three keys the application uses, each
    holding the decoded JSON value when the key is present.  What the
    platform decides is passed in: [String.prototype.toLowerCase], the
    parsing of a date string in the local time zone, the clock and the
    generated identifiers. *)

From Stdlib Require Import List String Ascii Bool Arith ZArith QArith Lia.
From Stdlib Require Import Qround Qpower Lqa.
From Stdlib Require Import Permutation Sorted DecimalString.
Import ListNotations.

Local Open Scope string_scope.
Local Open Scope Z_scope.

(** ** JavaScript built-ins used by the sources *)

Module JS.

(** [String.prototype.includes]: [sub] occurs in [s] at some offset. *)
Fixpoint includes (s sub : string) : bool :=
  String.prefix sub s
  || match s with
     | EmptyString => false
     | String _ s' => includes s' sub
     end.

(** The relation [includes] decides. *)
Definition Substring (sub s : string) : Prop :=
  exists pre post, s = pre ++ sub ++ post.

Definition bytes (l : list nat) : string :=
  string_of_list_ascii (List.map ascii_of_nat l).

(** ECMAScript WhiteSpace and LineTerminator code points, UTF-8 encoded:
    TAB, LF, VT, FF, CR, SP, NBSP, U+1680, U+2000..U+200A, U+2028, U+2029,
    U+202F, U+205F, U+3000 and U+FEFF. *)
Definition whiteSpace : list string :=
  List.map bytes
    [ [9]; [10]; [11]; [12]; [13]; [32]; [194; 160]; [225; 154; 128];
      [226; 128; 128]; [226; 128; 129]; [226; 128; 130]; [226; 128; 131];
      [226; 128; 132]; [226; 128; 133]; [226; 128; 134]; [226; 128; 135];
      [226; 128; 136]; [226; 128; 137]; [226; 128; 138]; [226; 128; 168];
      [226; 128; 169]; [226; 128; 175]; [226; 129; 159]; [227; 128; 128];
      [239; 187; 191] ]%nat.

Definition drop (n : nat) (s : string) : string :=
  String.substring n (String.length s - n) s.

Definition reverse (s : string) : string :=
  string_of_list_ascii (List.rev (list_ascii_of_string s)).

(** One leading white-space character removed, if there is one. *)
Definition stripStart (s : string) : option string :=
  match List.find (fun w => String.prefix w s) whiteSpace with
  | Some w => Some (drop (String.length w) s)
  | None => None
  end.

Fixpoint trimStart_loop (fuel : nat) (s : string) : string :=
  match fuel with
  | O => s
  | S fuel' =>
      match stripStart s with
      | Some s' => trimStart_loop fuel' s'
      | None => s
      end
  end.

Definition trimStart (s : string) : string :=
  trimStart_loop (String.length s) s.

Definition stripEnd (s : string) : option string :=
  match List.find (fun w => String.prefix (reverse w) (reverse s)) whiteSpace with
  | Some w => Some (String.substring 0 (String.length s - String.length w) s)
  | None => None
  end.

Fixpoint trimEnd_loop (fuel : nat) (s : string) : string :=
  match fuel with
  | O => s
  | S fuel' =>
      match stripEnd s with
      | Some s' => trimEnd_loop fuel' s'
      | None => s
      end
  end.

Definition trimEnd (s : string) : string :=
  trimEnd_loop (String.length s) s.

(** [String.prototype.trim]. *)
Definition trim (s : string) : string := trimEnd (trimStart s).

(** [String.prototype.toLowerCase] on strings whose cased letters are all
    Basic Latin; the kana and kanji of the category names have no case. *)
Definition asciiLowerCase (s : string) : string :=
  string_of_list_ascii
    (List.map
       (fun c => let n := nat_of_ascii c in
                 if (65 <=? n)%nat && (n <=? 90)%nat
                 then ascii_of_nat (n + 32) else c)
       (list_ascii_of_string s)).

(** ** Numbers

    A finite double is the rational it denotes.  [roundDouble] is the
    rounding of IEEE 754 binary64 arithmetic, to nearest with ties to even:
    53 significant bits, subnormals below 2^-1022 on the grid of 2^-1074.
    It is the double JavaScript computes wherever the exact result is
    below the overflow threshold 2^1024; the sources divide by a total
    they have found positive and by a number of days only. *)
Definition pow2 (k : Z) : Q := Qpower 2 k.

(** The nearest integer, the even one of two that are equally near. *)
Definition roundHalfEven (x : Q) : Z :=
  let f := Qfloor x in
  match Qcompare (x - inject_Z f) (1 # 2) with
  | Lt => f
  | Gt => f + 1
  | Eq => if Z.even f then f else f + 1
  end.

(** The exponent [e] with 2^e <= x < 2^(e+1), for a positive [x]. *)
Definition floorLog2 (x : Q) : Z :=
  let e0 := Z.log2 (Qnum x) - Z.log2 (Zpos (Qden x)) in
  if Qle_bool (pow2 e0) x then e0 else e0 - 1.

(** The exponent of the spacing of the doubles around a positive [x]. *)
Definition ulpExponent (x : Q) : Z := Z.max (floorLog2 x - 52) (-1074).

Definition roundPositive (x : Q) : Q :=
  (inject_Z (roundHalfEven (x / pow2 (ulpExponent x)))
   * pow2 (ulpExponent x))%Q.

Definition roundDouble (x : Q) : Q :=
  match Qcompare x 0 with
  | Eq => 0%Q
  | Gt => Qred (roundPositive x)
  | Lt => Qred (- roundPositive (- x))
  end.

(** [x / y] and [x * y] on numbers. *)
Definition divide (x y : Q) : Q := roundDouble (x / y).
Definition multiply (x y : Q) : Q := roundDouble (x * y).

(** [Number.MAX_SAFE_INTEGER]. *)
Definition MAX_SAFE_INTEGER : Z := 2 ^ 53 - 1.

(** Template-literal rendering of an integer: [`${n}`], in the decimal
    digits JavaScript prints for a number below 10^21. *)
Definition numberToString (n : Z) : string :=
  NilZero.string_of_int (Z.to_int n).

Definition natToString (n : nat) : string :=
  NilZero.string_of_uint (Nat.to_uint n).

(** [Array.prototype.findIndex]; [None] stands for the result -1. *)
Fixpoint findIndex {A : Type} (p : A -> bool) (l : list A) : option nat :=
  match l with
  | [] => None
  | x :: l' =>
      if p x then Some O
      else match findIndex p l' with
           | Some i => Some (S i)
           | None => None
           end
  end.

(** The read-modify-write [l[i] = f (l[i])] at an index inside the array,
    the only kind of index [findIndex] returns. *)
Fixpoint modifyAt {A : Type} (i : nat) (f : A -> A) (l : list A) : list A :=
  match l, i with
  | [], _ => []
  | x :: l', O => f x :: l'
  | x :: l', S i' => x :: modifyAt i' f l'
  end.

Definition quote : string := String (ascii_of_nat 34) EmptyString.
Definition newline : string := String (ascii_of_nat 10) EmptyString.

(** [a || b] on an optional string: the empty string is falsy too. *)
Definition orElse (a : option string) (b : string) : string :=
  match a with
  | Some s => if String.eqb s "" then b else s
  | None => b
  end.

(** A [Date] as far as the sources look at it.  Parsing and the local
    time zone belong to the platform; [None] is an Invalid Date, whose
    getters all return NaN. *)
Record Date : Type :=
  { getFullYear : Z; getMonth : Z; getTime : Z }.

(** [s.split(sep)] for a separator of one character: one piece more than
    there are separators, so the empty string gives one empty piece. *)
Fixpoint split (sep : ascii) (s : string) : list string :=
match s with
| EmptyString => [EmptyString]
| String c s' =>
    if Ascii.eqb c sep then EmptyString :: split sep s'
    else match split sep s' with
         | piece :: pieces => String c piece :: pieces
         | [] => [String c EmptyString]
         end
end.

(** [Array.prototype.sort] with a numeric comparator [cmp a b]: a negative
    result puts [a] first.  The sort is stable, as ECMAScript 2019
    requires; it is written as a straight insertion sort. *)
Section Sort.
Context {A : Type} (cmp : A -> A -> Z).

Fixpoint insert (x : A) (l : list A) : list A :=
  match l with
  | [] => [x]
  | y :: l' => if cmp y x <=? 0 then y :: insert x l' else x :: y :: l'
  end.

Definition sort (l : list A) : list A :=
  List.fold_left (fun acc x => insert x acc) l [].
End Sort.

(** ** [Map] with string keys, in insertion order *)
Module Map.
Definition t (V : Type) : Type := list (string * V).

Fixpoint get {V : Type} (m : t V) (k : string) : option V :=
  match m with
  | [] => None
  | (k', v) :: m' => if String.eqb k' k then Some v else get m' k
  end.

(** [set] overwrites in place when the key is present and appends a
    new binding otherwise. *)
Fixpoint set {V : Type} (m : t V) (k : string) (v : V) : t V :=
  match m with
  | [] => [(k, v)]
  | (k', v') :: m' =>
      if String.eqb k' k then (k', v) :: m' else (k', v') :: set m' k v
  end.

Definition keys {V : Type} (m : t V) : list string := List.map fst m.
Definition values {V : Type} (m : t V) : list V := List.map snd m.
End Map.

End JS.

(** ** types/kakeibo.ts *)

Module Cat.
Record t : Type := mk
  { id : string;
    name : string;
    color : string;
    icon : option string;
    createdAt : string }.

(** [Partial<Category>]: [None] is a key the object does not carry. *)
Record partial : Type := mkPartial
  { id_ : option string;
    name_ : option string;
    color_ : option string;
    icon_ : option string;
    createdAt_ : option string }.
End Cat.

Module Entry.
Record t : Type := mk
  { id : string;
    date : string;
    itemName : string;
    amount : Z;
    categoryId : string;
    categoryName : option string;
    note : option string;
    imageUri : option string;
    createdAt : string;
    updatedAt : string }.

(** [Partial<KakeiboEntry>]: a key is absent ([None]) or holds a value of
    the field's type. *)
Record partial : Type := mkPartial
  { id_ : option string;
    date_ : option string;
    itemName_ : option string;
    amount_ : option Z;
    categoryId_ : option string;
    categoryName_ : option string;
    note_ : option string;
    imageUri_ : option string;
    createdAt_ : option string;
    updatedAt_ : option string }.
End Entry.

Definition Category : Type := Cat.t.
Definition KakeiboEntry : Type := Entry.t.

(** One line item of an [AIAnalysisResult]. *)
Record AnalysisItem : Type :=
  { item_date : string;
    item_itemName : string;
    item_amount : Z;
    suggestedCategory : option string }.

Record AIAnalysisResult : Type :=
  { result_entries : list AnalysisItem;
    confidence : Q;
    rawText : option string }.

Record BreakdownItem : Type :=
  { bd_categoryId : string;
    bd_categoryName : string;
    bd_categoryColor : string;
    bd_amount : Z;
    percentage : Q }.

Record MonthlySummary : Type :=
  { year : Z;
    month : Z;
    totalAmount : Z;
    categoryBreakdown : list BreakdownItem;
    entryCount : nat;
    averageDailySpending : Q }.

(** [DEFAULT_CATEGORIES]: name, color, icon. *)
Definition DEFAULT_CATEGORIES : list (string * string * string) :=
  [ ("食費", "#FF6B6B", "cart");
    ("日用品", "#4ECDC4", "home");
    ("交通費", "#45B7D1", "car");
    ("娯楽", "#FFA07A", "game-controller");
    ("医療費", "#98D8C8", "medical");
    ("教育費", "#F7DC6F", "book");
    ("光熱費", "#BB8FCE", "flash");
    ("通信費", "#85C1E2", "phone-portrait");
    ("その他", "#95A5A6", "ellipsis-horizontal") ].

(** ** Asynchronous code over the key-value store

    An [async] function is a state transformer over [AsyncStorage] that
    either resolves with a value or rejects with an [Error] message.  A
    rejection keeps whatever was written before it: nothing is rolled back.
    The store itself is taken to be reachable, so [getItem], [setItem] and
    [multiRemove] do not fail. *)

Record AsyncStorage : Type :=
  { ENTRIES : option (list KakeiboEntry);
    CATEGORIES : option (list Category);
    LAST_SYNC : option string }.

Inductive Outcome (A : Type) : Type :=
| Resolved (a : A)
| Rejected (message : string).
Arguments Resolved {A} a.
Arguments Rejected {A} message.

Definition Promise (A : Type) : Type := AsyncStorage -> Outcome A * AsyncStorage.

Definition resolve {A : Type} (a : A) : Promise A := fun st => (Resolved a, st).

Definition throw {A : Type} (message : string) : Promise A :=
  fun st => (Rejected message, st).

Definition await {A B : Type} (c : Promise A) (k : A -> Promise B) : Promise B :=
  fun st =>
    match c st with
    | (Resolved a, st') => k a st'
    | (Rejected message, st') => (Rejected message, st')
    end.

Notation "x <- c ;; k" := (await c (fun x => k))
  (at level 61, c at next level, right associativity).
Notation "c ;;; k" := (await c (fun _ => k))
  (at level 61, right associativity).

(** [for (const x of l) { await body x }]. *)
Fixpoint forOf {A : Type} (l : list A) (body : A -> Promise unit) : Promise unit :=
  match l with
  | [] => resolve tt
  | x :: l' => body x ;;; forOf l' body
  end.

(** [Array.prototype.forEach] and [map] with the element's index. *)
Fixpoint mapi_from {A B : Type} (i : nat) (f : A -> nat -> B) (l : list A) : list B :=
  match l with
  | [] => []
  | x :: l' => f x i :: mapi_from (S i) f l'
  end.

Definition mapi {A B : Type} (f : A -> nat -> B) (l : list A) : list B :=
  mapi_from O f l.

(** ** lib/storage.ts *)

Module Storage.

Definition saveEntries (entries : list KakeiboEntry) : Promise unit :=
  fun st =>
    (Resolved tt,
     {| ENTRIES := Some entries;
        CATEGORIES := CATEGORIES st;
        LAST_SYNC := LAST_SYNC st |}).

Definition loadEntries : Promise (list KakeiboEntry) :=
  fun st =>
    match ENTRIES st with
    | Some entries => (Resolved entries, st)
    | None => (Resolved [], st)
    end.

Definition addEntry (entry : KakeiboEntry) : Promise unit :=
  entries <- loadEntries ;;
  saveEntries (entries ++ [entry]).

(** [{ ...old, ...updates, updatedAt: now }]. *)
Definition spreadEntry (old : KakeiboEntry) (updates : Entry.partial)
    (now : string) : KakeiboEntry :=
  let pick {A : Type} (u : option A) (o : A) : A :=
    match u with Some v => v | None => o end in
  let pickOpt {A : Type} (u : option A) (o : option A) : option A :=
    match u with Some v => Some v | None => o end in
  {| Entry.id := pick (Entry.id_ updates) (Entry.id old);
     Entry.date := pick (Entry.date_ updates) (Entry.date old);
     Entry.itemName := pick (Entry.itemName_ updates) (Entry.itemName old);
     Entry.amount := pick (Entry.amount_ updates) (Entry.amount old);
     Entry.categoryId := pick (Entry.categoryId_ updates) (Entry.categoryId old);
     Entry.categoryName :=
       pickOpt (Entry.categoryName_ updates) (Entry.categoryName old);
     Entry.note := pickOpt (Entry.note_ updates) (Entry.note old);
     Entry.imageUri := pickOpt (Entry.imageUri_ updates) (Entry.imageUri old);
     Entry.createdAt := pick (Entry.createdAt_ updates) (Entry.createdAt old);
     Entry.updatedAt := now |}.

(** [now] is the value of [new Date().toISOString()] at the call. *)
Definition updateEntry (now : string) (id : string) (updates : Entry.partial)
  : Promise unit :=
  entries <- loadEntries ;;
  match JS.findIndex (fun e => String.eqb (Entry.id e) id) entries with
  | None => throw "エントリーが見つかりません"
  | Some index =>
      saveEntries
        (JS.modifyAt index (fun old => spreadEntry old updates now) entries)
  end.

Definition deleteEntry (id : string) : Promise unit :=
  entries <- loadEntries ;;
  let filtered :=
    List.filter (fun e => negb (String.eqb (Entry.id e) id)) entries in
  saveEntries filtered.

Section Dates.
(** [new Date(s)], read in the platform's local time zone. *)
Variable newDate : string -> option JS.Date.

Definition inMonth (year month : Z) (entry : KakeiboEntry) : bool :=
  match newDate (Entry.date entry) with
  | Some entryDate =>
      (JS.getFullYear entryDate =? year)
      && (JS.getMonth entryDate + 1 =? month)
  | None => false
  end.

Definition getEntriesByMonth (year month : Z) : Promise (list KakeiboEntry) :=
  entries <- loadEntries ;;
  resolve (List.filter (inMonth year month) entries).

(** The comparator of [generateCSV].  The difference is NaN when one of the
    two dates does not parse, and [Array.prototype.sort] reads a NaN as 0.
    Such a comparator is not a consistent one, and the order the engine
    then produces is its own choice: [JS.sort] is the engine's sort only
    on entries whose dates all parse ([ValidDates]), and nothing is stated
    about the order otherwise. *)
Definition byDateDescending (a b : KakeiboEntry) : Z :=
  match newDate (Entry.date b), newDate (Entry.date a) with
  | Some db, Some da => JS.getTime db - JS.getTime da
  | _, _ => 0
  end.
End Dates.

Definition saveCategories (categories : list Category) : Promise unit :=
  fun st =>
    (Resolved tt,
     {| ENTRIES := ENTRIES st;
        CATEGORIES := Some categories;
        LAST_SYNC := LAST_SYNC st |}).

(** The callback of [DEFAULT_CATEGORIES.map] reads the clock itself, once
    per category: [clock index] is the value of
    [new Date().toISOString()] in the call for the category at [index]. *)
Definition defaultCategories (clock : nat -> string) : list Category :=
  mapi (fun cat index =>
          let '(name, color, icon) := cat in
          {| Cat.id := "default_" ++ JS.natToString index;
             Cat.name := name;
             Cat.color := color;
             Cat.icon := Some icon;
             Cat.createdAt := clock index |})
       DEFAULT_CATEGORIES.

(** The first read of an absent key creates and persists the defaults. *)
Definition loadCategories (clock : nat -> string) : Promise (list Category) :=
  fun st =>
    match CATEGORIES st with
    | Some categories => (Resolved categories, st)
    | None =>
        (saveCategories (defaultCategories clock) ;;;
         resolve (defaultCategories clock)) st
    end.

Definition addCategory (clock : nat -> string) (category : Category) : Promise unit :=
  categories <- loadCategories clock ;;
  saveCategories (categories ++ [category]).

(** [{ ...old, ...updates }]. *)
Definition spreadCategory (old : Category) (updates : Cat.partial) : Category :=
  let pick {A : Type} (u : option A) (o : A) : A :=
    match u with Some v => v | None => o end in
  {| Cat.id := pick (Cat.id_ updates) (Cat.id old);
     Cat.name := pick (Cat.name_ updates) (Cat.name old);
     Cat.color := pick (Cat.color_ updates) (Cat.color old);
     Cat.icon :=
       match Cat.icon_ updates with Some v => Some v | None => Cat.icon old end;
     Cat.createdAt := pick (Cat.createdAt_ updates) (Cat.createdAt old) |}.

Definition updateCategory (clock : nat -> string) (id : string) (updates : Cat.partial)
  : Promise unit :=
  categories <- loadCategories clock ;;
  match JS.findIndex (fun c => String.eqb (Cat.id c) id) categories with
  | None => throw "カテゴリが見つかりません"
  | Some index =>
      saveCategories
        (JS.modifyAt index (fun old => spreadCategory old updates) categories)
  end.

Definition deleteCategory (clock : nat -> string) (id : string) : Promise unit :=
  categories <- loadCategories clock ;;
  let filtered :=
    List.filter (fun c => negb (String.eqb (Cat.id c) id)) categories in
  saveCategories filtered.

Definition clearAllData : Promise unit :=
  fun _ =>
    (Resolved tt, {| ENTRIES := None; CATEGORIES := None; LAST_SYNC := None |}).

Definition csvHeader : string := "日付,項目名,金額,カテゴリ,メモ" ++ JS.newline.

Definition csvRow (categoryMap : JS.Map.t string) (entry : KakeiboEntry) : string :=
  let categoryName :=
    JS.orElse (JS.Map.get categoryMap (Entry.categoryId entry)) "その他" in
  let note := JS.orElse (Entry.note entry) "" in
  Entry.date entry ++ "," ++ JS.quote ++ Entry.itemName entry ++ JS.quote
    ++ "," ++ JS.numberToString (Entry.amount entry)
    ++ "," ++ JS.quote ++ categoryName ++ JS.quote
    ++ "," ++ JS.quote ++ note ++ JS.quote ++ JS.newline.

Definition generateCSV (newDate : string -> option JS.Date) (clock : nat -> string)
  : Promise string :=
  entries <- loadEntries ;;
  categories <- loadCategories clock ;;
  let categoryMap :=
    List.fold_left (fun m c => JS.Map.set m (Cat.id c) (Cat.name c))
                   categories [] in
  let csv := csvHeader in
  resolve
    (List.fold_left (fun csv entry => csv ++ csvRow categoryMap entry)
                    (JS.sort (byDateDescending newDate) entries) csv).

End Storage.

(** ** lib/ai-analysis.ts *)

Module AiAnalysis.

(** The object literal [categoryMap]; [Object.entries] enumerates its keys,
    none of which is an array index, in the order they are written. *)
Definition categoryMap : list (string * string) :=
  [ ("食費", "食費"); ("食事", "食費"); ("食料", "食費"); ("食材", "食費");
    ("外食", "食費");
    ("日用品", "日用品"); ("生活用品", "日用品"); ("雑貨", "日用品");
    ("交通費", "交通費"); ("交通", "交通費"); ("電車", "交通費");
    ("バス", "交通費"); ("タクシー", "交通費"); ("ガソリン", "交通費");
    ("娯楽", "娯楽"); ("趣味", "娯楽"); ("レジャー", "娯楽");
    ("エンタメ", "娯楽");
    ("医療費", "医療費"); ("医療", "医療費"); ("病院", "医療費");
    ("薬", "医療費");
    ("教育費", "教育費"); ("教育", "教育費"); ("学費", "教育費");
    ("書籍", "教育費");
    ("光熱費", "光熱費"); ("電気", "光熱費"); ("ガス", "光熱費");
    ("水道", "光熱費");
    ("通信費", "通信費"); ("通信", "通信費"); ("電話", "通信費");
    ("インターネット", "通信費");
    ("その他", "その他") ].

Section Normalizer.
(** [String.prototype.toLowerCase], a platform function. *)
Variable toLowerCase : string -> string.

(** The [for ... of Object.entries(categoryMap)] loop with its early
    return; falling out of the loop returns the catch-all. *)
Fixpoint firstMatch (normalized : string) (table : list (string * string))
  : string :=
  match table with
  | [] => "その他"
  | (key, value) :: table' =>
      if JS.includes normalized (toLowerCase key) then value
      else firstMatch normalized table'
  end.

Definition normalizeCategoryName (suggestedCategory : option string) : string :=
  match suggestedCategory with
  | None => "その他"
  | Some s =>
      if String.eqb s "" then "その他"
      else
        let normalized := JS.trim (toLowerCase s) in
        firstMatch normalized categoryMap
  end.
End Normalizer.

End AiAnalysis.

(** ** The per-category accumulation shared by both screens *)

Record CategoryData : Type :=
  { data_name : string; data_color : string; data_amount : Z }.

(** [categories.forEach(cat => categoryMap.set(cat.id, {..., amount: 0}))]. *)
Definition initCategoryMap (categories : list Category) : JS.Map.t CategoryData :=
  List.fold_left
    (fun m cat =>
       JS.Map.set m (Cat.id cat)
         {| data_name := Cat.name cat; data_color := Cat.color cat; data_amount := 0 |})
    categories [].

(** [const cat = categoryMap.get(entry.categoryId); if (cat) cat.amount += ...]:
    the object held by the map is updated in place. *)
Definition addToCategory (m : JS.Map.t CategoryData) (entry : KakeiboEntry)
  : JS.Map.t CategoryData :=
  match JS.Map.get m (Entry.categoryId entry) with
  | Some cat =>
      JS.Map.set m (Entry.categoryId entry)
        {| data_name := data_name cat;
           data_color := data_color cat;
           data_amount := data_amount cat + Entry.amount entry |}
  | None => m
  end.

Definition accumulate (entries : list KakeiboEntry) (categories : list Category)
  : JS.Map.t CategoryData :=
  List.fold_left addToCategory entries (initCategoryMap categories).

(** [entries.reduce((sum, entry) => sum + entry.amount, 0)]. *)
Definition sumAmounts (entries : list KakeiboEntry) : Z :=
  List.fold_left (fun sum entry => sum + Entry.amount entry) entries 0.

(** ** app/(tabs)/index.tsx *)

Module Home.

(** [totalAmount > 0 ? (amount / totalAmount) * 100 : 0]. *)
Definition percentageOf (amount totalAmount : Z) : Q :=
  if (0 <? totalAmount)%Z
  then JS.multiply (JS.divide (inject_Z amount) (inject_Z totalAmount)) 100
  else 0%Q.

(** The [.map] stage of the breakdown, every category still present. *)
Definition breakdownOfMap (totalAmount : Z) (m : JS.Map.t CategoryData)
  : list BreakdownItem :=
  List.map
    (fun '(id, data) =>
       {| bd_categoryId := id;
          bd_categoryName := data_name data;
          bd_categoryColor := data_color data;
          bd_amount := data_amount data;
          percentage := percentageOf (data_amount data) totalAmount |})
    m.

Definition isLeapYear (y : Z) : bool :=
  ((y mod 4 =? 0) && negb (y mod 100 =? 0)) || (y mod 400 =? 0).

(** [new Date(year, month, 0).getDate()]: the last day of the 1-based
    [month]; a month outside 1..12 carries into the year, and a year in
    0..99 means 1900 + year.  This is the Gregorian calendar, which local
    time follows wherever the time zone has not skipped or repeated a
    calendar day in that month. *)
Definition daysInMonth (year month : Z) : Z :=
  let y0 := if (0 <=? year) && (year <=? 99) then 1900 + year else year in
  let y := y0 + (month - 1) / 12 in
  let m := (month - 1) mod 12 + 1 in
  if m =? 2 then (if isLeapYear y then 29 else 28)
  else if (m =? 4) || (m =? 6) || (m =? 9) || (m =? 11) then 30
  else 31.

Definition calculateMonthlySummary (entries : list KakeiboEntry)
    (categories : list Category) (year month : Z) : MonthlySummary :=
  let totalAmount := sumAmounts entries in
  let categoryMap := accumulate entries categories in
  let categoryBreakdown :=
    JS.sort (fun a b => bd_amount b - bd_amount a)
      (List.filter (fun item => 0 <? bd_amount item)
         (breakdownOfMap totalAmount categoryMap)) in
  let daysInMonth := daysInMonth year month in
  let averageDailySpending :=
    JS.divide (inject_Z totalAmount) (inject_Z daysInMonth) in
  {| year := year;
     month := month;
     totalAmount := totalAmount;
     categoryBreakdown := categoryBreakdown;
     entryCount := List.length entries;
     averageDailySpending := averageDailySpending |}.

(** The screen's state: [entries], [categories] and [monthlySummary]. *)
Record State : Type :=
{ entries : list KakeiboEntry;
  categories : list Category;
  monthlySummary : option MonthlySummary }.

(** [loadData]; [currentYear] and [currentMonth] are read from the clock,
    the readings [clock] stamp the default categories if this is their
    first read.  The two reads under [Promise.all] touch different keys.
    A rejection is logged and leaves the state as it was. *)
Definition loadData (newDate : string -> option JS.Date) (clock : nat -> string)
  (currentYear currentMonth : Z) (state : State) (st : AsyncStorage)
: State * AsyncStorage :=
let body : Promise State :=
  loadedEntries <- Storage.loadEntries ;;
  loadedCategories <- Storage.loadCategories clock ;;
  monthlyEntries <- Storage.getEntriesByMonth newDate currentYear currentMonth ;;
  let summary :=
    calculateMonthlySummary monthlyEntries loadedCategories
      currentYear currentMonth in
  resolve {| entries := loadedEntries;
             categories := loadedCategories;
             monthlySummary := Some summary |} in
match body st with
| (Resolved state', st') => (state', st')
| (Rejected _, st') => (state, st')
end.

(** [categories.find(c => c.id === entry.categoryId)?.name || 'その他']. *)
Definition categoryLabel (categories : list Category) (entry : KakeiboEntry)
: string :=
JS.orElse
  (option_map Cat.name
     (List.find (fun c => String.eqb (Cat.id c) (Entry.categoryId entry))
                categories))
  "その他".

(** The rows under 最近のスキャン: [entries.slice(0, 3)], each with its item
    name, date, category label and amount. *)
Definition recentScans (entries : list KakeiboEntry) (categories : list Category)
: list (string * string * string * Z) :=
List.map
  (fun entry =>
     (Entry.itemName entry, Entry.date entry, categoryLabel categories entry,
      Entry.amount entry))
  (List.firstn 3 entries).

(** The rows under カテゴリ別支出: [categoryBreakdown.slice(0, 5)]. *)
Definition shownBreakdown (summary : MonthlySummary) : list BreakdownItem :=
List.firstn 5 (categoryBreakdown summary).

End Home.

(** ** app/(tabs)/analytics.tsx *)

Module Analytics.

(** [categories] and [monthlyEntries] are the screen's state. *)
Definition getCategoryData (categories : list Category)
    (monthlyEntries : list KakeiboEntry) : list CategoryData :=
  JS.sort (fun a b => data_amount b - data_amount a)
    (List.filter (fun item => 0 <? data_amount item)
       (JS.Map.values (accumulate monthlyEntries categories))).

Record TrendData : Type := { data : list Z; labels : list string }.

Section Trend.
Variable newDate : string -> option JS.Date.
Variables currentYear currentMonth : Z.

(** One iteration of the loop body for the offset [i]. *)
Definition trendStep (i : Z) (acc : TrendData) : Promise TrendData :=
  let year := currentYear in
  let month := currentMonth - i in
  let '(year, month) :=
    if month <=? 0 then (year - 1, month + 12) else (year, month) in
  entries <- Storage.getEntriesByMonth newDate year month ;;
  let total := sumAmounts entries in
  resolve {| data := data acc ++ [total];
             labels := labels acc ++ [JS.numberToString month ++ "月"] |}.

Fixpoint trendLoop (offsets : list Z) (acc : TrendData) : Promise TrendData :=
  match offsets with
  | [] => resolve acc
  | i :: offsets' => acc' <- trendStep i acc ;; trendLoop offsets' acc'
  end.

(** [for (let i = 5; i >= 0; i--)]. *)
Definition getMonthlyTrendData : Promise TrendData :=
  trendLoop [5; 4; 3; 2; 1; 0] {| data := []; labels := [] |}.
End Trend.

(** The two month buttons, as functions from the current (year, month)
    to the one they set. *)
Definition handlePreviousMonth (currentYear currentMonth : Z) : Z * Z :=
if currentMonth =? 1 then (currentYear - 1, 12)
else (currentYear, currentMonth - 1).

Definition handleNextMonth (currentYear currentMonth : Z) : Z * Z :=
if currentMonth =? 12 then (currentYear + 1, 1)
else (currentYear, currentMonth + 1).

(** [loadData]: the categories and the month's entries, read together. *)
Definition loadData (newDate : string -> option JS.Date) (clock : nat -> string)
  (currentYear currentMonth : Z)
: Promise (list Category * list KakeiboEntry) :=
loadedCategories <- Storage.loadCategories clock ;;
entries <- Storage.getEntriesByMonth newDate currentYear currentMonth ;;
resolve (loadedCategories, entries).

(** The total shown above the charts. *)
Definition shownTotal (monthlyEntries : list KakeiboEntry) : Z :=
sumAmounts monthlyEntries.


(** [trendData.data.length > 0 && trendData.data.some(v => v > 0)]. *)
Definition showsTrendChart (trendData : TrendData) : bool :=
(0 <? List.length (data trendData))%nat
&& List.existsb (fun v => 0 <? v) (data trendData).

End Analytics.

(** ** app/(tabs)/scan.tsx *)

(** What the platform hands to one iteration of the ingestion loop: the
    identifier built from [Date.now()] and [Math.random()], and the two
    time stamps. *)
Record Tick : Type :=
  { newId : string; createdAtNow : string; updatedAtNow : string }.

Inductive Alert : Type :=
| AlertNoData
| AlertSaved (count : nat)
| AlertAnalysisFailed.

Module Scan.

Definition kakeiboEntry (imageUri : string) (entry : AnalysisItem) (tick : Tick)
  : KakeiboEntry :=
  let categoryName := JS.orElse (suggestedCategory entry) "その他" in
  {| Entry.id := newId tick;
     Entry.date := item_date entry;
     Entry.itemName := item_itemName entry;
     Entry.amount := item_amount entry;
     Entry.categoryId := categoryName;
     Entry.categoryName := Some categoryName;
     Entry.note := None;
     Entry.imageUri := Some imageUri;
     Entry.createdAt := createdAtNow tick;
     Entry.updatedAt := updatedAtNow tick |}.

(** [analysis] is the outcome of [analyzeKakeiboImage imageUri], the call
    to the vision service; [ticks k] serves the [k]-th loop iteration. *)
Definition analyzeImage (ticks : nat -> Tick) (analysis : Outcome AIAnalysisResult)
    (imageUri : string) (st : AsyncStorage) : Alert * AsyncStorage :=
  let body : Promise Alert :=
    result <- (fun st => (analysis, st)) ;;
    if (List.length (result_entries result) =? 0)%nat then resolve AlertNoData
    else
      forOf (mapi (fun entry k => (entry, ticks k)) (result_entries result))
            (fun '(entry, tick) =>
               Storage.addEntry (kakeiboEntry imageUri entry tick)) ;;;
      resolve (AlertSaved (List.length (result_entries result))) in
  match body st with
  | (Resolved alert, st') => (alert, st')
  | (Rejected _, st') => (AlertAnalysisFailed, st')
  end.

End Scan.

(** The repository's second copy of the scan screen differs in the entry
    it builds: every item is filed under the first default category. *)
Module ScanPlain.

Definition kakeiboEntry (imageUri : string) (entry : AnalysisItem) (tick : Tick)
  : KakeiboEntry :=
  {| Entry.id := newId tick;
     Entry.date := item_date entry;
     Entry.itemName := item_itemName entry;
     Entry.amount := item_amount entry;
     Entry.categoryId := "default_0";
     Entry.categoryName := None;
     Entry.note := None;
     Entry.imageUri := Some imageUri;
     Entry.createdAt := createdAtNow tick;
     Entry.updatedAt := updatedAtNow tick |}.

Definition analyzeImage (ticks : nat -> Tick) (analysis : Outcome AIAnalysisResult)
    (imageUri : string) (st : AsyncStorage) : Alert * AsyncStorage :=
  let body : Promise Alert :=
    result <- (fun st => (analysis, st)) ;;
    if (List.length (result_entries result) =? 0)%nat then resolve AlertNoData
    else
      forOf (mapi (fun entry k => (entry, ticks k)) (result_entries result))
            (fun '(entry, tick) =>
               Storage.addEntry (kakeiboEntry imageUri entry tick)) ;;;
      resolve (AlertSaved (List.length (result_entries result))) in
  match body st with
  | (Resolved alert, st') => (alert, st')
  | (Rejected _, st') => (AlertAnalysisFailed, st')
  end.

End ScanPlain.

(** ** app/(tabs)/settings.tsx *)

Inductive ExportAlert : Type :=
| ExportIgnored
| NothingToExport
| ExportDone (fileName : string)
| ExportFailed.

Module Settings.

(** [handleExportCSV].  [today] is the date part of
    [new Date().toISOString()]; [write] and [share] are the outcomes of
    [FileSystem.writeAsStringAsync] and [Share.share].  The result is the
    alert shown and the file written, if one was. *)
Definition handleExportCSV (newDate : string -> option JS.Date)
  (clock : nat -> string) (today : string) (documentDirectory : string) (write share : Outcome unit)
  (isExporting : bool) (st : AsyncStorage)
: ExportAlert * option (string * string) * AsyncStorage :=
if isExporting then (ExportIgnored, None, st)
else
  match Storage.generateCSV newDate clock st with
  | (Rejected _, st') => (ExportFailed, None, st')
  | (Resolved csvData, st') =>
      if String.eqb csvData ""
         || (List.length (JS.split (ascii_of_nat 10) csvData) <=? 1)%nat
      then (NothingToExport, None, st')
      else
        let fileName := "kakeibo_export_" ++ today ++ ".csv" in
        let fileUri := documentDirectory ++ fileName in
        match write with
        | Rejected _ => (ExportFailed, None, st')
        | Resolved _ =>
            match share with
            | Rejected _ => (ExportFailed, Some (fileUri, csvData), st')
            | Resolved _ => (ExportDone fileName, Some (fileUri, csvData), st')
            end
        end
  end.

End Settings.

(** ** Vocabulary of the properties *)

Definition sumZ (l : list Z) : Z := List.fold_right Z.add 0 l.

Definition sumQ (l : list Q) : Q := List.fold_right Qplus 0%Q l.

(** The entry's category reference is the id of a known category. *)
Definition Known (categories : list Category) (entry : KakeiboEntry) : Prop :=
  In (Entry.categoryId entry) (List.map Cat.id categories).

Definition knownb (categories : list Category) (entry : KakeiboEntry) : bool :=
  List.existsb (String.eqb (Entry.categoryId entry)) (List.map Cat.id categories).

Definition NonNegative (entries : list KakeiboEntry) : Prop :=
  Forall (fun entry => 0 <= Entry.amount entry) entries.

(** The total held by the accumulators of a map. *)
Definition mapTotal (m : JS.Map.t CategoryData) : Z :=
  sumZ (List.map data_amount (JS.Map.values m)).

(** The amounts of the entries filed under a known category, summed. *)
Definition knownTotal (categories : list Category) (entries : list KakeiboEntry) : Z :=
  sumZ (List.map Entry.amount (List.filter (knownb categories) entries)).

(** An item carries the percentage of its own amount in the total [t]. *)
Definition Consistent (t : Z) (item : BreakdownItem) : Prop :=
  percentage item = Home.percentageOf (bd_amount item) t.

(** The entry collection a reader of the store sees. *)
Definition storedEntries (st : AsyncStorage) : list KakeiboEntry :=
  match ENTRIES st with Some entries => entries | None => [] end.

(** The category collection a reader of the store sees; the readings
    [clock] stamp the defaults where the key is absent. *)
Definition loadedCategories (clock : nat -> string) (st : AsyncStorage) : list Category :=
  match CATEGORIES st with
  | Some categories => categories
  | None => Storage.defaultCategories clock
  end.

Definition entryIds (st : AsyncStorage) : list string :=
  List.map Entry.id (storedEntries st).

Definition categoryIds (clock : nat -> string) (st : AsyncStorage) : list string :=
  List.map Cat.id (loadedCategories clock st).

(** Calendar arithmetic in the spec's words: the month [k] months before
    the 1-based [month] of [year], through the count of months since year 0. *)
Definition monthsBefore (year month : Z) (k : Z) : Z * Z :=
  let index := 12 * year + (month - 1) - k in
  (index / 12, index mod 12 + 1).

(** The count of months since year 0 of a (year, 1-based month) pair. *)
Definition monthCount (ym : Z * Z) : Z := 12 * fst ym + (snd ym - 1).

(** The sum of the amounts of the stored entries dated in a month. *)
Definition monthTotal (newDate : string -> option JS.Date) (st : AsyncStorage)
    (ym : Z * Z) : Z :=
  sumZ (List.map Entry.amount
          (List.filter (Storage.inMonth newDate (fst ym) (snd ym))
                       (storedEntries st))).

(** The label of a month on the chart. *)
Definition monthLabel (ym : Z * Z) : string :=
  JS.numberToString (snd ym) ++ "月".

(** What the two screens show of a category: name, color, amount. *)
Definition tripleOfItem (item : BreakdownItem) : string * string * Z :=
  (bd_categoryName item, bd_categoryColor item, bd_amount item).

Definition tripleOfData (item : CategoryData) : string * string * Z :=
  (data_name item, data_color item, data_amount item).

(** The amounts of the entries filed under one category id, summed. *)
Definition categoryTotal (id : string) (entries : list KakeiboEntry) : Z :=
  sumZ (List.map Entry.amount
          (List.filter (fun e => String.eqb (Entry.categoryId e) id) entries)).

(** Every entry's date parses. *)
Definition ValidDates (newDate : string -> option JS.Date)
    (entries : list KakeiboEntry) : Prop :=
  Forall (fun e => newDate (Entry.date e) <> None) entries.

(** The time stamp of an entry's date, where it parses. *)
Definition timeOf (newDate : string -> option JS.Date) (entry : KakeiboEntry) : Z :=
  match newDate (Entry.date entry) with
  | Some d => JS.getTime d
  | None => 0
  end.

(** The id-to-name map [generateCSV] builds from the categories. *)
Definition csvCategoryMap (categories : list Category) : JS.Map.t string :=
  List.fold_left (fun m c => JS.Map.set m (Cat.id c) (Cat.name c)) categories [].

(** Newest first: no later element has a greater time stamp. *)
Definition NewestFirst (newDate : string -> option JS.Date)
    (entries : list KakeiboEntry) : Prop :=
  StronglySorted (fun a b => timeOf newDate b <= timeOf newDate a) entries.

(** Largest amount first. *)
Definition LargestFirst (items : list BreakdownItem) : Prop :=
  StronglySorted (fun a b => bd_amount b <= bd_amount a) items.

(** The binding a category leaves in the fresh map. *)
Definition fromCategory (categories : list Category) (kv : string * CategoryData)
  : Prop :=
  data_amount (snd kv) = 0
  /\ exists c, In c categories /\ Cat.id c = fst kv
               /\ Cat.name c = data_name (snd kv)
               /\ Cat.color c = data_color (snd kv).

(** An accumulator with [z] added to its amount. *)
Definition bump (z : Z) (d : CategoryData) : CategoryData :=
  {| data_name := data_name d; data_color := data_color d;
     data_amount := data_amount d + z |}.

(** The nine canonical category names. *)
Definition canonicalNames : list string :=
  List.map (fun cat => let '(name, _, _) := cat in name) DEFAULT_CATEGORIES.


(** No amount is negative and the total is a safe integer, so that every
    sum the sources form is exact. *)
Definition SafeAmounts (entries : list KakeiboEntry) : Prop :=
  NonNegative entries
  /\ sumZ (List.map Entry.amount entries) <= JS.MAX_SAFE_INTEGER.


(** A field after the object spread [{ ...old, ...updates }]: the value
    [updates] carries where the key is present, the old value where it is
    absent. *)
Definition spreadField {A : Type} (update : option A) (old : A) : A :=
  match update with
  | Some value => value
  | None => old
  end.

(** [sub] is [l] with some elements left out, the others in the order of
    [l]. *)
Inductive Subsequence {A : Type} : list A -> list A -> Prop :=
| Subsequence_nil : Subsequence [] []
| Subsequence_skip x sub l : Subsequence sub l -> Subsequence sub (x :: l)
| Subsequence_keep x sub l : Subsequence sub l -> Subsequence (x :: sub) (x :: l).

(** The entry's date parses and falls in the month. *)
Definition InMonth (newDate : string -> option JS.Date) (year month : Z)
    (entry : KakeiboEntry) : Prop :=
  exists d, newDate (Entry.date entry) = Some d
            /\ JS.getFullYear d = year
            /\ JS.getMonth d + 1 = month.

(** ** Sample data *)

Module Sample.

Definition category (id name : string) : Category :=
  {| Cat.id := id; Cat.name := name; Cat.color := "#FF6B6B";
     Cat.icon := None; Cat.createdAt := "2026-01-01T00:00:00.000Z" |}.

Definition entry (id categoryId : string) (amount : Z) : KakeiboEntry :=
  {| Entry.id := id; Entry.date := "2026-01-04"; Entry.itemName := "買い物";
     Entry.amount := amount; Entry.categoryId := categoryId;
     Entry.categoryName := None; Entry.note := None; Entry.imageUri := None;
     Entry.createdAt := "2026-01-04T09:00:00.000Z";
     Entry.updatedAt := "2026-01-04T09:00:00.000Z" |}.

Definition categories : list Category :=
  [ category "default_0" "食費"; category "default_2" "交通費" ].

(** A clock that has advanced by a second at each reading. *)
Definition clock (reading : nat) : string :=
  "2026-01-05T00:00:" ++ (if (reading <? 10)%nat then "0" else "")
  ++ JS.natToString reading ++ ".000Z".

(** The second entry carries a category name where an id is expected, as
    the scan screen writes it. *)
Definition halfKnown : list KakeiboEntry :=
  [ entry "e1" "default_0" 500; entry "e2" "食費" 500 ].

Definition zeroUnknown : list KakeiboEntry :=
  [ entry "e1" "default_0" 1200; entry "e2" "食費" 0 ].

(** Two purchases under known categories whose shares of the total are
    no doubles: 200 and 900 of 1100. *)
Definition elevenths : list KakeiboEntry :=
  [ entry "e1" "default_0" 200; entry "e2" "default_2" 900 ].

(** A purchase and a refund, both under known categories. *)
Definition withRefund : list KakeiboEntry :=
  [ entry "e1" "default_0" 300; entry "e2" "default_2" (-200) ].

Definition store : AsyncStorage :=
  {| ENTRIES := Some halfKnown; CATEGORIES := Some categories;
     LAST_SYNC := None |}.

Definition emptyStore : AsyncStorage :=
  {| ENTRIES := None; CATEGORIES := None; LAST_SYNC := None |}.

Definition newAmount : Entry.partial :=
  {| Entry.id_ := None; Entry.date_ := None; Entry.itemName_ := None;
     Entry.amount_ := Some 800; Entry.categoryId_ := None;
     Entry.categoryName_ := None; Entry.note_ := None;
     Entry.imageUri_ := None; Entry.createdAt_ := None;
     Entry.updatedAt_ := None |}.

Definition rename : Cat.partial :=
  {| Cat.id_ := None; Cat.name_ := Some "外食費"; Cat.color_ := None;
     Cat.icon_ := None; Cat.createdAt_ := None |}.

(** January 2026 only, in a time zone east of Greenwich. *)
Definition newDate (s : string) : option JS.Date :=
  if String.eqb s "2026-01-04"
  then Some {| JS.getFullYear := 2026; JS.getMonth := 0;
               JS.getTime := 1767484800000 |}
  else None.

Definition ticks (k : nat) : Tick :=
  {| newId := "entry_1767517200000_" ++ JS.natToString k;
     createdAtNow := "2026-01-04T09:00:00.000Z";
     updatedAtNow := "2026-01-04T09:00:00.000Z" |}.

(** One line item whose category guess is a keyword of the mapping table
    but not a canonical name. *)
Definition trainFare : AIAnalysisResult :=
  {| result_entries :=
       [ {| item_date := "2026-01-04"; item_itemName := "電車代";
            item_amount := 500; suggestedCategory := Some "電車" |} ];
     confidence := (85 # 100)%Q;
     rawText := None |}.

End Sample.

(** * Properties *)

(** ** Substring search *)

Lemma prefix_split (p s : string) :
  String.prefix p s = true <-> exists post, s = p ++ post.
Proof.
  revert s; induction p as [|c p IH]; intros s; simpl.
  - split; [intros _; now exists s | intros _; now destruct s].
  - destruct s as [|d s].
    + split; [discriminate | intros [post H]; discriminate].
    + simpl; destruct (Ascii.ascii_dec c d) as [->|Hcd].
      * rewrite IH; split; intros [post H]; exists post.
        -- now rewrite H.
        -- now inversion H.
      * split; [discriminate | intros [post H]; congruence].
Qed.

Lemma includes_nil (sub : string) :
  JS.includes "" sub = String.prefix sub "" || false.
Proof. reflexivity. Qed.

Lemma includes_cons (c : ascii) (s sub : string) :
  JS.includes (String c s) sub
  = String.prefix sub (String c s) || JS.includes s sub.
Proof. reflexivity. Qed.

Lemma includes_spec (s sub : string) :
  JS.includes s sub = true <-> JS.Substring sub s.
Proof.
  unfold JS.Substring; induction s as [|c s IH].
  - rewrite includes_nil, orb_false_r, prefix_split; split.
    + intros [post H]; now exists "", post.
    + intros [[|d pre] [post H]]; [now exists post | discriminate].
  - rewrite includes_cons, orb_true_iff, IH, prefix_split; split.
    + intros [[post H] | [pre [post H]]].
      * now exists "", post.
      * exists (String c pre), post; simpl; now rewrite H.
    + intros [[|d pre] [post H]].
      * left; now exists post.
      * right; exists pre, post; simpl in H; now inversion H.
Qed.

Lemma includes_false (s sub : string) :
  JS.includes s sub = false <-> ~ JS.Substring sub s.
Proof.
  rewrite <- includes_spec; destruct (JS.includes s sub); split; intros H;
    try reflexivity; try discriminate; try (intros H'; discriminate).
  now contradiction H.
Qed.

(** ** The category normalizer *)

Section NormalizerFacts.
Variable toLowerCase : string -> string.

Lemma firstMatch_none (n : string) (table : list (string * string)) :
  (forall k v, In (k, v) table -> JS.includes n (toLowerCase k) = false) ->
  AiAnalysis.firstMatch toLowerCase n table = "その他".
Proof.
  induction table as [|[k v] table IH]; intros H; simpl; [reflexivity|].
  rewrite (H k v (or_introl eq_refl)).
  apply IH; intros k' v' Hin; apply (H k' v'); now right.
Qed.

Lemma firstMatch_first (n : string) (pre post : list (string * string))
    (k v : string) :
  JS.includes n (toLowerCase k) = true ->
  (forall k' v', In (k', v') pre -> JS.includes n (toLowerCase k') = false) ->
  AiAnalysis.firstMatch toLowerCase n (pre ++ (k, v) :: post)%list = v.
Proof.
  intros Hk; induction pre as [|[k' v'] pre IH]; intros Hpre; simpl.
  - now rewrite Hk.
  - rewrite (Hpre k' v' (or_introl eq_refl)).
    apply IH; intros k'' v'' Hin; apply (Hpre k'' v''); now right.
Qed.

(** C6. Provided lower-casing leaves the keywords of the table as they
    are, [normalizeCategoryName] answers その他 for an absent guess, for the
    empty guess and for a guess none of whose keywords occurs in the
    lower-cased, trimmed text; and when keywords do occur, it answers the
    canonical name of the one that stands first in the table, wherever
    the others stand in the table or in the guess. *)
Theorem normalizeCategoryName_table_order :
  (forall k v, In (k, v) AiAnalysis.categoryMap -> toLowerCase k = k) ->
  AiAnalysis.normalizeCategoryName toLowerCase None = "その他"
  /\ AiAnalysis.normalizeCategoryName toLowerCase (Some "") = "その他"
  /\ (forall guess,
        (forall k v, In (k, v) AiAnalysis.categoryMap ->
                     ~ JS.Substring k (JS.trim (toLowerCase guess))) ->
        AiAnalysis.normalizeCategoryName toLowerCase (Some guess) = "その他")
  /\ (forall guess (pre post : list (string * string)) k v,
        guess <> "" ->
        AiAnalysis.categoryMap = (pre ++ (k, v) :: post)%list ->
        JS.Substring k (JS.trim (toLowerCase guess)) ->
        (forall k' v', In (k', v') pre ->
                       ~ JS.Substring k' (JS.trim (toLowerCase guess))) ->
        AiAnalysis.normalizeCategoryName toLowerCase (Some guess) = v).
Proof.
  intros Hfix; repeat split.
  - intros guess Hnone; unfold AiAnalysis.normalizeCategoryName.
    destruct (String.eqb guess ""); [reflexivity|].
    apply firstMatch_none; intros k v Hin.
    rewrite (Hfix k v Hin); apply includes_false; now apply (Hnone k v).
  - intros guess pre post k v Hne Htable Hk Hpre.
    unfold AiAnalysis.normalizeCategoryName.
    destruct (String.eqb_spec guess ""); [contradiction|].
    assert (Hin : forall k' v', In (k', v') pre \/ (k', v') = (k, v) ->
                                toLowerCase k' = k').
    { intros k' v' H; apply (Hfix k' v'); rewrite Htable.
      apply in_or_app; destruct H as [H|H]; [now left | right; now left]. }
    rewrite Htable; apply firstMatch_first.
    + rewrite (Hin k v (or_intror eq_refl)); now apply includes_spec.
    + intros k' v' H; rewrite (Hin k' v' (or_introl H)).
      apply includes_false; now apply (Hpre k' v').
Qed.
End NormalizerFacts.

Lemma asciiLowerCase_fixes_keywords (k v : string) :
  In (k, v) AiAnalysis.categoryMap -> JS.asciiLowerCase k = k.
Proof.
  unfold AiAnalysis.categoryMap; simpl; intros H.
  repeat (destruct H as [H|H]; [inversion H; subst; reflexivity|]).
  contradiction.
Qed.

(** 書籍 stands first in the guess, 食事 stands first in the table. *)
Lemma normalizeCategoryName_table_order_witness :
  AiAnalysis.normalizeCategoryName JS.asciiLowerCase (Some "書籍と食事") = "食費".
Proof.
  refine (proj2 (proj2 (proj2
            (normalizeCategoryName_table_order JS.asciiLowerCase
               asciiLowerCase_fixes_keywords)))
          "書籍と食事" [("食費", "食費")] _ "食事" "食費" _ eq_refl _ _).
  - discriminate.
  - apply includes_spec; vm_compute; reflexivity.
  - intros k' v' [H|[]]; inversion H; subst.
    apply includes_false; vm_compute; reflexivity.
Defined.

(** ** Sums, sorting and the insertion-ordered map *)

Lemma sumZ_perm (l1 l2 : list Z) : Permutation l1 l2 -> sumZ l1 = sumZ l2.
Proof. induction 1; simpl; lia. Qed.

Lemma sumZ_nonneg (l : list Z) : Forall (fun x => 0 <= x) l -> 0 <= sumZ l.
Proof. induction 1; simpl; lia. Qed.


Lemma sumZ_zero_iff (l : list Z) :
  Forall (fun x => 0 <= x) l -> (sumZ l = 0 <-> Forall (fun x => x = 0) l).
Proof.
  induction 1 as [|y l Hy Hl IH]; simpl.
  - split; constructor.
  - pose proof (sumZ_nonneg l Hl); split.
    + intros H0; constructor; [lia | apply IH; lia].
    + intros H0; inversion H0; subst; apply IH in H4; lia.
Qed.

Lemma sumAmounts_from (entries : list KakeiboEntry) (start : Z) :
  List.fold_left (fun sum entry => sum + Entry.amount entry) entries start
  = start + sumZ (List.map Entry.amount entries).
Proof.
  revert start; induction entries as [|e entries IH]; intros start; simpl.
  - ring.
  - rewrite IH; ring.
Qed.

Lemma sumAmounts_sumZ (entries : list KakeiboEntry) :
  sumAmounts entries = sumZ (List.map Entry.amount entries).
Proof. unfold sumAmounts; now rewrite sumAmounts_from. Qed.

Section SortFacts.
Context {A : Type} (cmp : A -> A -> Z).

Lemma insert_perm (x : A) (l : list A) : Permutation (JS.insert cmp x l) (x :: l).
Proof.
  induction l as [|y l IH]; simpl; [reflexivity|].
  destruct (cmp y x <=? 0); [|reflexivity].
  rewrite IH; apply perm_swap.
Qed.

Lemma sort_from_perm (l acc : list A) :
  Permutation (List.fold_left (fun acc x => JS.insert cmp x acc) l acc)
              (l ++ acc)%list.
Proof.
  revert acc; induction l as [|x l IH]; intros acc; simpl; [reflexivity|].
  rewrite IH, insert_perm; symmetry; apply Permutation_middle.
Qed.

Lemma sort_perm (l : list A) : Permutation (JS.sort cmp l) l.
Proof. unfold JS.sort; rewrite sort_from_perm; now rewrite app_nil_r. Qed.

Lemma sort_In (l : list A) (x : A) : In x (JS.sort cmp l) <-> In x l.
Proof.
  split; apply Permutation_in; [apply sort_perm | symmetry; apply sort_perm].
Qed.

Context {B : Type} (cmp' : B -> B -> Z) (f : A -> B).
Hypothesis cmp_f : forall a b, cmp' (f a) (f b) = cmp a b.

Lemma insert_map (x : A) (l : list A) :
  List.map f (JS.insert cmp x l) = JS.insert cmp' (f x) (List.map f l).
Proof.
  induction l as [|y l IH]; simpl; [reflexivity|].
  rewrite cmp_f; destruct (cmp y x <=? 0); simpl; [now rewrite IH | reflexivity].
Qed.

Lemma sort_from_map (l acc : list A) :
  List.map f (List.fold_left (fun acc x => JS.insert cmp x acc) l acc)
  = List.fold_left (fun acc x => JS.insert cmp' x acc)
                   (List.map f l) (List.map f acc).
Proof.
  revert acc; induction l as [|x l IH]; intros acc; simpl; [reflexivity|].
  now rewrite IH, insert_map.
Qed.

Lemma sort_map (l : list A) :
  List.map f (JS.sort cmp l) = JS.sort cmp' (List.map f l).
Proof. unfold JS.sort; apply (sort_from_map l []). Qed.
End SortFacts.

Lemma filter_map_comm {A B : Type} (f : A -> B) (p : B -> bool) (l : list A) :
  List.filter p (List.map f l) = List.map f (List.filter (fun x => p (f x)) l).
Proof.
  induction l as [|x l IH]; simpl; [reflexivity|].
  destruct (p (f x)); simpl; now rewrite IH.
Qed.

Section MapFacts.
Context {V : Type}.
Implicit Types (m : JS.Map.t V) (k : string) (v : V).

Lemma get_In m k : JS.Map.get m k <> None <-> In k (JS.Map.keys m).
Proof.
  induction m as [|[k' v'] m IH]; simpl.
  - split; [congruence | contradiction].
  - destruct (String.eqb_spec k' k) as [->|Hne].
    + split; [now left | discriminate].
    + rewrite IH; split; [now right | intros [H|H]; [contradiction | exact H]].
Qed.

Lemma get_None m k : JS.Map.get m k = None <-> ~ In k (JS.Map.keys m).
Proof.
  rewrite <- get_In; destruct (JS.Map.get m k); split; intros H;
    try congruence; try (intros H'; congruence).
  exfalso; apply H; discriminate.
Qed.

Lemma set_keys_present m k v v' :
  JS.Map.get m k = Some v' -> JS.Map.keys (JS.Map.set m k v) = JS.Map.keys m.
Proof.
  induction m as [|[k0 v0] m IH]; simpl; [discriminate|].
  destruct (String.eqb k0 k); simpl; [reflexivity|].
  intros H; now rewrite IH.
Qed.

Lemma set_keys_In m k v k' :
  In k' (JS.Map.keys (JS.Map.set m k v)) <-> In k' (JS.Map.keys m) \/ k' = k.
Proof.
  induction m as [|[k0 v0] m IH]; simpl.
  - intuition congruence.
  - destruct (String.eqb_spec k0 k) as [->|Hne]; simpl.
    + intuition congruence.
    + rewrite IH; tauto.
Qed.

Lemma set_values_Forall (P : V -> Prop) m k v :
  P v -> Forall P (JS.Map.values m) -> Forall P (JS.Map.values (JS.Map.set m k v)).
Proof.
  intros Hv; induction m as [|[k0 v0] m IH]; simpl; intros H.
  - now constructor.
  - inversion H; subst.
    destruct (String.eqb k0 k); simpl; constructor; auto.
Qed.

Lemma get_values_In m k v : JS.Map.get m k = Some v -> In v (JS.Map.values m).
Proof.
  induction m as [|[k0 v0] m IH]; simpl; [discriminate|].
  destruct (String.eqb k0 k); [intros [= ->]; now left | right; auto].
Qed.
End MapFacts.

Lemma set_total (m : JS.Map.t CategoryData) (k : string) (old v : CategoryData) :
  JS.Map.get m k = Some old ->
  mapTotal (JS.Map.set m k v) = mapTotal m - data_amount old + data_amount v.
Proof.
  unfold mapTotal; induction m as [|[k0 v0] m IH]; simpl; [discriminate|].
  destruct (String.eqb k0 k); simpl.
  - intros [= ->]; ring.
  - intros H; rewrite (IH H); ring.
Qed.

(** ** The accumulation *)

Lemma knownb_Known (categories : list Category) (entry : KakeiboEntry) :
  knownb categories entry = true <-> Known categories entry.
Proof.
  unfold knownb, Known; rewrite existsb_exists; split.
  - intros [k [Hin Heq]]; apply String.eqb_eq in Heq; now subst.
  - intros Hin; exists (Entry.categoryId entry); split;
      [exact Hin | apply String.eqb_refl].
Qed.

Lemma initCategoryMap_from_keys (categories : list Category)
    (m : JS.Map.t CategoryData) (k : string) :
  In k (JS.Map.keys
          (List.fold_left
             (fun m cat =>
                JS.Map.set m (Cat.id cat)
                  {| data_name := Cat.name cat; data_color := Cat.color cat;
                     data_amount := 0 |}) categories m))
  <-> In k (JS.Map.keys m) \/ In k (List.map Cat.id categories).
Proof.
  revert m; induction categories as [|c categories IH]; intros m; simpl.
  - tauto.
  - rewrite IH, set_keys_In; intuition congruence.
Qed.

Lemma initCategoryMap_keys (categories : list Category) (k : string) :
  In k (JS.Map.keys (initCategoryMap categories))
  <-> In k (List.map Cat.id categories).
Proof.
  unfold initCategoryMap; rewrite initCategoryMap_from_keys; simpl; tauto.
Qed.

Lemma initCategoryMap_from_zero (categories : list Category)
    (m : JS.Map.t CategoryData) :
  Forall (fun d => data_amount d = 0) (JS.Map.values m) ->
  Forall (fun d => data_amount d = 0)
    (JS.Map.values
       (List.fold_left
          (fun m cat =>
             JS.Map.set m (Cat.id cat)
               {| data_name := Cat.name cat; data_color := Cat.color cat;
                  data_amount := 0 |}) categories m)).
Proof.
  revert m; induction categories as [|c categories IH]; intros m H; simpl.
  - exact H.
  - apply IH, set_values_Forall; [reflexivity | exact H].
Qed.

Lemma initCategoryMap_total (categories : list Category) :
  mapTotal (initCategoryMap categories) = 0.
Proof.
  unfold mapTotal.
  assert (H : Forall (fun d => data_amount d = 0)
                (JS.Map.values (initCategoryMap categories)))
    by (apply initCategoryMap_from_zero; constructor).
  induction H as [|d l Hd Hl IH]; simpl; [reflexivity | lia].
Qed.

Lemma addToCategory_keys (m : JS.Map.t CategoryData) (entry : KakeiboEntry) :
  JS.Map.keys (addToCategory m entry) = JS.Map.keys m.
Proof.
  unfold addToCategory.
  destruct (JS.Map.get m (Entry.categoryId entry)) eqn:Hget; [|reflexivity].
  now apply set_keys_present with (v' := c).
Qed.

Lemma addToCategory_total (m : JS.Map.t CategoryData) (entry : KakeiboEntry) :
  mapTotal (addToCategory m entry)
  = mapTotal m
    + (if List.existsb (String.eqb (Entry.categoryId entry)) (JS.Map.keys m)
       then Entry.amount entry else 0).
Proof.
  unfold addToCategory.
  destruct (JS.Map.get m (Entry.categoryId entry)) eqn:Hget.
  - rewrite (set_total _ _ _ _ Hget); simpl.
    assert (Hin : In (Entry.categoryId entry) (JS.Map.keys m))
      by (apply get_In; congruence).
    assert (Hb : List.existsb (String.eqb (Entry.categoryId entry))
                   (JS.Map.keys m) = true).
    { apply existsb_exists; eexists; split; [exact Hin | apply String.eqb_refl]. }
    rewrite Hb; ring.
  - apply get_None in Hget.
    destruct (List.existsb _ _) eqn:Hb; [|ring].
    apply existsb_exists in Hb; destruct Hb as [k [Hin Heq]].
    apply String.eqb_eq in Heq; subst; contradiction.
Qed.

Lemma addToCategory_nonneg (m : JS.Map.t CategoryData) (entry : KakeiboEntry) :
  0 <= Entry.amount entry ->
  Forall (fun d => 0 <= data_amount d) (JS.Map.values m) ->
  Forall (fun d => 0 <= data_amount d) (JS.Map.values (addToCategory m entry)).
Proof.
  intros He Hm; unfold addToCategory.
  destruct (JS.Map.get m (Entry.categoryId entry)) eqn:Hget; [|exact Hm].
  apply set_values_Forall; [simpl | exact Hm].
  apply get_values_In in Hget.
  rewrite Forall_forall in Hm; specialize (Hm _ Hget); lia.
Qed.

Lemma accumulate_from (entries : list KakeiboEntry) (m : JS.Map.t CategoryData) :
  JS.Map.keys (List.fold_left addToCategory entries m) = JS.Map.keys m
  /\ mapTotal (List.fold_left addToCategory entries m)
     = mapTotal m
       + sumZ (List.map Entry.amount
                 (List.filter
                    (fun e => List.existsb (String.eqb (Entry.categoryId e))
                                           (JS.Map.keys m)) entries))
  /\ (NonNegative entries ->
      Forall (fun d => 0 <= data_amount d) (JS.Map.values m) ->
      Forall (fun d => 0 <= data_amount d)
             (JS.Map.values (List.fold_left addToCategory entries m))).
Proof.
  revert m; induction entries as [|e entries IH]; intros m; simpl.
  - repeat split; [ring | auto].
  - destruct (IH (addToCategory m e)) as (Hk & Ht & Hn).
    rewrite Hk, Ht, addToCategory_keys, addToCategory_total.
    repeat split.
    + destruct (List.existsb _ (JS.Map.keys m)); simpl; ring.
    + intros Hnn Hm; inversion Hnn; subst.
      apply Hn; [assumption | now apply addToCategory_nonneg].
Qed.

Lemma existsb_ext_In (k : string) (l1 l2 : list string) :
  (forall x, In x l1 <-> In x l2) ->
  List.existsb (String.eqb k) l1 = List.existsb (String.eqb k) l2.
Proof.
  intros H; apply eq_true_iff_eq; rewrite !existsb_exists.
  split; intros [x [Hin Heq]]; exists x; split; auto; now apply H.
Qed.

Lemma accumulate_total (entries : list KakeiboEntry) (categories : list Category) :
  mapTotal (accumulate entries categories) = knownTotal categories entries.
Proof.
  unfold accumulate, knownTotal.
  destruct (accumulate_from entries (initCategoryMap categories)) as (_ & Ht & _).
  rewrite Ht, initCategoryMap_total; simpl.
  f_equal; f_equal; apply filter_ext; intros e.
  apply existsb_ext_In; intros x; apply initCategoryMap_keys.
Qed.

Lemma accumulate_nonneg (entries : list KakeiboEntry) (categories : list Category) :
  NonNegative entries ->
  Forall (fun d => 0 <= data_amount d)
         (JS.Map.values (accumulate entries categories)).
Proof.
  intros Hnn; unfold accumulate.
  destruct (accumulate_from entries (initCategoryMap categories)) as (_ & _ & Hn).
  apply Hn; [exact Hnn|].
  assert (H : Forall (fun d => data_amount d = 0)
                (JS.Map.values (initCategoryMap categories)))
    by (apply initCategoryMap_from_zero; constructor).
  eapply Forall_impl; [|exact H]; simpl; intros; lia.
Qed.

(** ** Rounding to a double *)




Lemma pow2_lt a b : a < b -> (JS.pow2 a < JS.pow2 b)%Q.
Proof. intros H; apply Qpower_lt_compat_l; [exact H | reflexivity]. Qed.



























(** ** Percentages *)





(** ** The breakdown of the monthly summary *)

Lemma breakdownOfMap_amounts (t : Z) (m : JS.Map.t CategoryData) :
  List.map bd_amount (Home.breakdownOfMap t m)
  = List.map data_amount (JS.Map.values m).
Proof.
  unfold Home.breakdownOfMap, JS.Map.values; rewrite !map_map.
  apply map_ext; now intros [id d].
Qed.

Lemma breakdownOfMap_consistent (t : Z) (m : JS.Map.t CategoryData) :
  Forall (Consistent t) (Home.breakdownOfMap t m).
Proof.
  unfold Home.breakdownOfMap; apply Forall_forall; intros b Hb.
  apply in_map_iff in Hb; destruct Hb as [[id d] [<- _]]; reflexivity.
Qed.

Lemma sumZ_filter_positive (items : list BreakdownItem) :
  Forall (fun b => 0 <= bd_amount b) items ->
  sumZ (List.map bd_amount (List.filter (fun item => 0 <? bd_amount item) items))
  = sumZ (List.map bd_amount items).
Proof.
  induction 1 as [|b items Hb Hl IH]; simpl; [reflexivity|].
  destruct (Z.ltb_spec 0 (bd_amount b)); simpl; lia.
Qed.

Lemma breakdown_In (entries : list KakeiboEntry) (categories : list Category)
    (y m : Z) (b : BreakdownItem) :
  In b (categoryBreakdown (Home.calculateMonthlySummary entries categories y m))
  <-> In b (Home.breakdownOfMap (sumAmounts entries)
              (accumulate entries categories))
      /\ 0 < bd_amount b.
Proof.
  simpl; rewrite sort_In, filter_In, Z.ltb_lt; reflexivity.
Qed.

Lemma breakdown_total (entries : list KakeiboEntry) (categories : list Category)
    (y m : Z) :
  NonNegative entries ->
  sumZ (List.map bd_amount
          (categoryBreakdown
             (Home.calculateMonthlySummary entries categories y m)))
  = knownTotal categories entries.
Proof.
  intros Hnn; simpl.
  rewrite (sumZ_perm _ _ (Permutation_map bd_amount (sort_perm _ _))).
  rewrite sumZ_filter_positive.
  - rewrite breakdownOfMap_amounts; apply accumulate_total.
  - pose proof (accumulate_nonneg entries categories Hnn) as H.
    apply Forall_forall; intros b Hb.
    unfold Home.breakdownOfMap in Hb; apply in_map_iff in Hb.
    destruct Hb as [[id d] [<- Hin]]; simpl.
    rewrite Forall_forall in H; apply H.
    now apply (in_map snd) in Hin.
Qed.

Lemma total_split (categories : list Category) (entries : list KakeiboEntry) :
  sumAmounts entries
  = knownTotal categories entries
    + sumZ (List.map Entry.amount
              (List.filter (fun e => negb (knownb categories e)) entries)).
Proof.
  rewrite sumAmounts_sumZ; unfold knownTotal.
  induction entries as [|e entries IH]; simpl; [reflexivity|].
  destruct (knownb categories e); simpl; lia.
Qed.

Lemma unknown_zero_iff (categories : list Category) (entries : list KakeiboEntry) :
  NonNegative entries ->
  0 <= sumZ (List.map Entry.amount
               (List.filter (fun e => negb (knownb categories e)) entries))
  /\ (sumZ (List.map Entry.amount
              (List.filter (fun e => negb (knownb categories e)) entries)) = 0
      <-> forall entry, In entry entries -> ~ Known categories entry ->
                        Entry.amount entry = 0).
Proof.
  intros Hnn.
  assert (Hf : Forall (fun x => 0 <= x)
                 (List.map Entry.amount
                    (List.filter (fun e => negb (knownb categories e)) entries))).
  { apply Forall_forall; intros x Hx; apply in_map_iff in Hx.
    destruct Hx as [e [<- He]]; apply filter_In in He.
    unfold NonNegative in Hnn; rewrite Forall_forall in Hnn; now apply Hnn. }
  split; [now apply sumZ_nonneg|].
  rewrite (sumZ_zero_iff _ Hf), Forall_forall; split.
  - intros H e He Hunknown; apply H, in_map, filter_In; split; [exact He|].
    destruct (knownb categories e) eqn:Hk; [|reflexivity].
    apply knownb_Known in Hk; contradiction.
  - intros H x Hx; apply in_map_iff in Hx; destruct Hx as [e [<- He]].
    apply filter_In in He; destruct He as [He Hk]; apply (H e He).
    intros HK; apply knownb_Known in HK; rewrite HK in Hk; discriminate.
Qed.

(** C2, as the code has it. When no amount is negative and the total is a
    safe integer, so that the sums are exact, the amounts of the breakdown
    sum to at most the summary's total, and the two are equal exactly when
    every entry whose category id is not the id of a known category has
    amount 0. *)
Theorem breakdown_sum_le_total (entries : list KakeiboEntry)
    (categories : list Category) (y m : Z) :
  SafeAmounts entries ->
  sumZ (List.map bd_amount
          (categoryBreakdown
             (Home.calculateMonthlySummary entries categories y m)))
  <= totalAmount (Home.calculateMonthlySummary entries categories y m)
  /\ (sumZ (List.map bd_amount
             (categoryBreakdown
                (Home.calculateMonthlySummary entries categories y m)))
      = totalAmount (Home.calculateMonthlySummary entries categories y m)
      <-> forall entry, In entry entries -> ~ Known categories entry ->
                        Entry.amount entry = 0).
Proof.
  intros [Hnn _]; rewrite (breakdown_total _ _ _ _ Hnn).
  change (totalAmount (Home.calculateMonthlySummary entries categories y m))
    with (sumAmounts entries).
  rewrite (total_split categories entries).
  destruct (unknown_zero_iff categories entries Hnn) as [Hge Hiff].
  split; [lia|]; rewrite <- Hiff; lia.
Qed.

Lemma breakdown_sum_le_total_witness :
  sumZ (List.map bd_amount
          (categoryBreakdown
             (Home.calculateMonthlySummary Sample.halfKnown Sample.categories
                2026 1)))
  <= 1000.
Proof.
  refine (proj1 (breakdown_sum_le_total Sample.halfKnown Sample.categories
                   2026 1 _)).
  split; [repeat constructor; simpl; lia | vm_compute; discriminate].
Defined.

(** C2 as stated fails: the sums are equal although the second entry's
    category id, a category name, is the id of no known category.  And
    since nothing keeps an amount from being negative, a refund takes the
    total below the breakdown's sum. *)
Lemma breakdown_sum_equal_with_unknown_category :
  (sumZ (List.map bd_amount
           (categoryBreakdown
              (Home.calculateMonthlySummary Sample.zeroUnknown Sample.categories
                 2026 1)))
   = totalAmount
       (Home.calculateMonthlySummary Sample.zeroUnknown Sample.categories 2026 1)
   /\ ~ (forall entry, In entry Sample.zeroUnknown ->
                       Known Sample.categories entry))
  /\ (sumZ (List.map bd_amount
              (categoryBreakdown
                 (Home.calculateMonthlySummary Sample.withRefund
                    Sample.categories 2026 1)))
      = 300
      /\ totalAmount
           (Home.calculateMonthlySummary Sample.withRefund Sample.categories
              2026 1)
         = 100).
Proof.
  split; [split; [reflexivity|] | split; reflexivity].
  intros H; specialize (H (Sample.entry "e2" "食費" 0) (or_intror (or_introl eq_refl))).
  unfold Known in H; simpl in H.
  destruct H as [H|[H|[]]]; discriminate.
Qed.

Lemma breakdown_consistent (entries : list KakeiboEntry)
    (categories : list Category) (y m : Z) :
  Forall (Consistent (sumAmounts entries))
    (categoryBreakdown (Home.calculateMonthlySummary entries categories y m)).
Proof.
  apply Forall_forall; intros b Hb; apply breakdown_In in Hb.
  destruct Hb as [Hb _].
  pose proof (breakdownOfMap_consistent (sumAmounts entries)
                (accumulate entries categories)) as H.
  rewrite Forall_forall in H; now apply H.
Qed.




(** The tolerance is needed: with 200 and 900 yen under two known
    categories the two percentages are the doubles 81.81818181818183 and
    18.181818181818183, and their sum lies above 100. *)
Lemma percentages_above_hundred :
  SafeAmounts Sample.elevenths
  /\ (forall entry, In entry Sample.elevenths -> Known Sample.categories entry)
  /\ List.map percentage
       (categoryBreakdown
          (Home.calculateMonthlySummary Sample.elevenths Sample.categories 2026 1))
     = [ (5757442705445237 # 70368744177664)%Q;
         (5117726849284655 # 281474976710656)%Q ]
  /\ (100 < sumQ (List.map percentage
                    (categoryBreakdown
                       (Home.calculateMonthlySummary Sample.elevenths
                          Sample.categories 2026 1))))%Q.
Proof.
  split; [split; [repeat constructor; simpl; lia | vm_compute; discriminate]|].
  split; [|split].
  - intros entry [<-|[<-|[]]]; unfold Known; simpl; [now left | right; now left].
  - vm_compute; reflexivity.
  - vm_compute; reflexivity.
Qed.


(** C8. When the total amount is 0, every category's item carries the
    percentage 0 at the [.map] stage, before any category is filtered out,
    and so does every item of the summary's breakdown: the division is not
    evaluated. *)
Theorem zero_total_zero_percentage (entries : list KakeiboEntry)
    (categories : list Category) (y m : Z) :
  totalAmount (Home.calculateMonthlySummary entries categories y m) = 0 ->
  Forall (fun b => percentage b = 0%Q)
    (Home.breakdownOfMap (sumAmounts entries) (accumulate entries categories))
  /\ Forall (fun b => percentage b = 0%Q)
       (categoryBreakdown (Home.calculateMonthlySummary entries categories y m)).
Proof.
  simpl; intros Hzero; split.
  - eapply Forall_impl; [|apply breakdownOfMap_consistent].
    intros b Hb; unfold Consistent in Hb; now rewrite Hb, Hzero.
  - eapply Forall_impl; [|apply (breakdown_consistent entries categories y m)].
    intros b Hb; unfold Consistent in Hb; now rewrite Hb, Hzero.
Qed.

(** The empty entry set, over the two sample categories. *)
Lemma zero_total_zero_percentage_witness :
  Forall (fun b => percentage b = 0%Q)
    (Home.breakdownOfMap (sumAmounts []) (accumulate [] Sample.categories))
  /\ List.length
       (Home.breakdownOfMap (sumAmounts []) (accumulate [] Sample.categories))
     = 2%nat.
Proof.
  split; [|reflexivity].
  exact (proj1 (zero_total_zero_percentage [] Sample.categories 2026 1 eq_refl)).
Defined.

(** C10. The analytics screen and the home screen list the same
    categories with the same names, colors and amounts, in the same order. *)
Theorem screens_agree (entries : list KakeiboEntry) (categories : list Category)
    (y m : Z) :
  List.map tripleOfData (Analytics.getCategoryData categories entries)
  = List.map tripleOfItem
      (categoryBreakdown (Home.calculateMonthlySummary entries categories y m)).
Proof.
  unfold Analytics.getCategoryData; simpl.
  set (byAmount := fun a b : string * string * Z => snd b - snd a).
  rewrite (sort_map _ byAmount tripleOfData) by reflexivity.
  rewrite (sort_map _ byAmount tripleOfItem) by reflexivity.
  f_equal.
  rewrite <- (filter_map_comm tripleOfData (fun t => 0 <? snd t)).
  rewrite <- (filter_map_comm tripleOfItem (fun t => 0 <? snd t)).
  f_equal.
  unfold JS.Map.values, Home.breakdownOfMap; rewrite !map_map.
  apply map_ext; now intros [id d].
Qed.

(** ** The trend series *)

Lemma wrap_monthsBefore (y m i : Z) :
  1 <= m <= 12 -> 0 <= i <= 5 ->
  (if m - i <=? 0 then (y - 1, m - i + 12) else (y, m - i)) = monthsBefore y m i.
Proof.
  intros Hm Hi; unfold monthsBefore.
  destruct (Z.leb_spec (m - i) 0) as [Hwrap|Hsame]; f_equal.
  - apply Z.div_unique with (r := m - i + 11); lia.
  - rewrite <- (Z.mod_unique (12 * y + (m - 1) - i) 12 (y - 1) (m - i + 11)); lia.
  - apply Z.div_unique with (r := m - i - 1); lia.
  - rewrite <- (Z.mod_unique (12 * y + (m - 1) - i) 12 y (m - i - 1)); lia.
Qed.

Lemma getEntriesByMonth_spec (newDate : string -> option JS.Date) (y m : Z)
    (st : AsyncStorage) :
  Storage.getEntriesByMonth newDate y m st
  = (Resolved (List.filter (Storage.inMonth newDate y m) (storedEntries st)), st).
Proof.
  unfold Storage.getEntriesByMonth, await, Storage.loadEntries, storedEntries.
  now destruct (ENTRIES st).
Qed.

Section TrendFacts.
Variable newDate : string -> option JS.Date.
Variables (y m : Z) (st : AsyncStorage).
Hypothesis month_in_range : 1 <= m <= 12.

Lemma trendStep_spec (i : Z) (acc : Analytics.TrendData) :
  0 <= i <= 5 ->
  Analytics.trendStep newDate y m i acc st
  = (Resolved
       {| Analytics.data :=
            (Analytics.data acc
             ++ [monthTotal newDate st (monthsBefore y m i)])%list;
          Analytics.labels :=
            (Analytics.labels acc
             ++ [monthLabel (monthsBefore y m i)])%list |},
     st).
Proof.
  intros Hi; unfold Analytics.trendStep; cbv zeta.
  rewrite (wrap_monthsBefore y m i month_in_range Hi).
  destruct (monthsBefore y m i) as [y' m'] eqn:Hym.
  unfold await; rewrite getEntriesByMonth_spec; unfold resolve, monthTotal.
  now rewrite sumAmounts_sumZ.
Qed.

Lemma trendLoop_spec (offsets : list Z) (acc : Analytics.TrendData) :
  Forall (fun i => 0 <= i <= 5) offsets ->
  Analytics.trendLoop newDate y m offsets acc st
  = (Resolved
       {| Analytics.data :=
            (Analytics.data acc
             ++ List.map (fun i => monthTotal newDate st (monthsBefore y m i))
                         offsets)%list;
          Analytics.labels :=
            (Analytics.labels acc
             ++ List.map (fun i => monthLabel (monthsBefore y m i))
                         offsets)%list |},
     st).
Proof.
  intros H; revert acc; induction H as [|i offsets Hi Hrest IH]; intros acc.
  - simpl; rewrite !app_nil_r; now destruct acc.
  - simpl; unfold await at 1; rewrite (trendStep_spec i acc Hi), IH; simpl.
    now rewrite <- !app_assoc.
Qed.
End TrendFacts.




(** ** CSV export *)

(** C9. When the store holds no entry, the export resolves with the header
    line alone: the five column names 日付, 項目名, 金額, カテゴリ and メモ
    separated by commas, and a line feed. *)
Theorem generateCSV_no_entries (newDate : string -> option JS.Date)
    (clock : nat -> string) (st : AsyncStorage) :
  storedEntries st = [] ->
  fst (Storage.generateCSV newDate clock st) = Resolved Storage.csvHeader
  /\ Storage.csvHeader
     = String.concat "," ["日付"; "項目名"; "金額"; "カテゴリ"; "メモ"]
       ++ JS.newline.
Proof.
  intros Hempty; split; [|reflexivity].
  unfold Storage.generateCSV, await, Storage.loadEntries, Storage.loadCategories.
  unfold storedEntries in Hempty.
  destruct (ENTRIES st) as [entries|]; [subst entries|];
    destruct (CATEGORIES st); reflexivity.
Qed.

Lemma generateCSV_no_entries_witness :
  fst (Storage.generateCSV Sample.newDate Sample.clock
         Sample.emptyStore)
  = Resolved Storage.csvHeader.
Proof.
  exact (proj1 (generateCSV_no_entries Sample.newDate _ Sample.emptyStore
                  eq_refl)).
Defined.

(** ** The stores *)

Lemma findIndex_None {A : Type} (p : A -> bool) (l : list A) :
  JS.findIndex p l = None <-> forall x, In x l -> p x = false.
Proof.
  induction l as [|x l IH]; simpl.
  - split; [intros _ y [] | reflexivity].
  - destruct (p x) eqn:Hx.
    + split; [discriminate | intros H; specialize (H x (or_introl eq_refl)); congruence].
    + destruct (JS.findIndex p l).
      * split; [discriminate|].
        intros H; assert (Some n = None); [|discriminate].
        apply IH; intros y Hy; apply H; now right.
      * split; [|reflexivity].
        intros _ y [<-|Hy]; [exact Hx | now apply IH].
Qed.

Lemma filter_all {A : Type} (p : A -> bool) (l : list A) :
  (forall x, In x l -> p x = true) -> List.filter p l = l.
Proof.
  induction l as [|x l IH]; simpl; intros H; [reflexivity|].
  rewrite (H x (or_introl eq_refl)), IH; [reflexivity|].
  intros y Hy; apply H; now right.
Qed.

Lemma modifyAt_map {A B : Type} (f : A -> B) (g : A -> A) (i : nat) (l : list A) :
  (forall x, f (g x) = f x) ->
  List.map f (JS.modifyAt i g l) = List.map f l.
Proof.
  intros Hfg; revert i; induction l as [|x l IH]; intros [|i]; simpl;
    try reflexivity.
  - now rewrite Hfg.
  - now rewrite IH.
Qed.

Lemma NoDup_map_filter {A B : Type} (f : A -> B) (p : A -> bool) (l : list A) :
  NoDup (List.map f l) -> NoDup (List.map f (List.filter p l)).
Proof.
  induction l as [|x l IH]; simpl; intros H; [constructor|].
  inversion H as [|? ? Hnotin Hrest]; subst.
  destruct (p x); simpl; [|now apply IH].
  constructor; [|now apply IH].
  intros Hin; apply Hnotin.
  apply in_map_iff in Hin; destruct Hin as [z [Hz Hin]].
  apply filter_In in Hin; rewrite <- Hz; now apply in_map.
Qed.

Lemma NoDup_snoc {A : Type} (l : list A) (x : A) :
  NoDup (l ++ [x])%list <-> NoDup l /\ ~ In x l.
Proof.
  assert (Hperm : Permutation (l ++ [x])%list (x :: l))
    by (symmetry; apply Permutation_cons_append).
  split.
  - intros H; apply (Permutation_NoDup Hperm) in H.
    inversion H; subst; now split.
  - intros [Hl Hx]; apply (Permutation_NoDup (Permutation_sym Hperm)).
    now constructor.
Qed.

Lemma not_in_ids_eqb {A : Type} (key : A -> string) (id : string) (l : list A) :
  ~ In id (List.map key l) -> forall x, In x l -> String.eqb (key x) id = false.
Proof.
  intros Hnotin x Hx; apply String.eqb_neq; intros Heq; apply Hnotin.
  rewrite <- Heq; now apply in_map.
Qed.

Lemma loadCategories_spec (clock : nat -> string) (st : AsyncStorage) :
  Storage.loadCategories clock st
  = (Resolved (loadedCategories clock st),
     {| ENTRIES := ENTRIES st;
        CATEGORIES := Some (loadedCategories clock st);
        LAST_SYNC := LAST_SYNC st |}).
Proof.
  unfold Storage.loadCategories, loadedCategories.
  destruct st as [es [cs|] ls]; reflexivity.
Qed.

Lemma loadEntries_spec (st : AsyncStorage) :
  Storage.loadEntries st = (Resolved (storedEntries st), st).
Proof. unfold Storage.loadEntries, storedEntries; now destruct (ENTRIES st). Qed.

(** C4, as the code has it. For an identifier that no stored entry
    (respectively no category) carries, the two update operations reject
    with their not-found message and the two delete operations resolve
    without an error; in all four cases a reader of the store sees the same
    collection afterwards. *)
Theorem missing_identifier (now : string) (clock : nat -> string) (st : AsyncStorage)
    (entryId categoryId : string)
    (entryUpdates : Entry.partial) (categoryUpdates : Cat.partial) :
  ~ In entryId (entryIds st) ->
  ~ In categoryId (categoryIds clock st) ->
  Storage.updateEntry now entryId entryUpdates st
  = (Rejected "エントリーが見つかりません", st)
  /\ (fst (Storage.updateCategory clock categoryId categoryUpdates st)
      = Rejected "カテゴリが見つかりません"
      /\ loadedCategories clock
           (snd (Storage.updateCategory clock categoryId categoryUpdates st))
         = loadedCategories clock st)
  /\ (fst (Storage.deleteEntry entryId st) = Resolved tt
      /\ storedEntries (snd (Storage.deleteEntry entryId st)) = storedEntries st)
  /\ (fst (Storage.deleteCategory clock categoryId st) = Resolved tt
      /\ loadedCategories clock (snd (Storage.deleteCategory clock categoryId st))
         = loadedCategories clock st).
Proof.
  unfold entryIds, categoryIds; intros He Hc.
  pose proof (not_in_ids_eqb Entry.id entryId _ He) as Hes.
  pose proof (not_in_ids_eqb Cat.id categoryId _ Hc) as Hcs.
  repeat split.
  - unfold Storage.updateEntry, await; rewrite loadEntries_spec.
    now rewrite (proj2 (findIndex_None _ _) Hes).
  - unfold Storage.updateCategory, await; rewrite loadCategories_spec.
    now rewrite (proj2 (findIndex_None _ _) Hcs).
  - unfold Storage.updateCategory, await; rewrite loadCategories_spec.
    now rewrite (proj2 (findIndex_None _ _) Hcs).
  - unfold Storage.deleteEntry, await; now rewrite loadEntries_spec.
  - unfold Storage.deleteEntry, await; rewrite loadEntries_spec; simpl.
    apply filter_all; intros x Hx; now rewrite (Hes x Hx).
  - unfold Storage.deleteCategory, await; now rewrite loadCategories_spec.
  - unfold Storage.deleteCategory, await; rewrite loadCategories_spec; simpl.
    apply filter_all; intros x Hx; now rewrite (Hcs x Hx).
Qed.

Lemma missing_identifier_witness :
  Storage.updateEntry "2026-01-05T00:00:00.000Z" "e9" Sample.newAmount Sample.store
  = (Rejected "エントリーが見つかりません", Sample.store).
Proof.
  refine (proj1 (missing_identifier "2026-01-05T00:00:00.000Z" Sample.clock
                   Sample.store
                   "e9" "default_9" Sample.newAmount Sample.rename _ _)).
  - simpl; intros [H|[H|[]]]; discriminate.
  - simpl; intros [H|[H|[]]]; discriminate.
Defined.

(** C4 as stated fails for the delete operations: [deleteEntry] with an
    identifier that no entry carries resolves, and raises nothing. *)
Lemma deleteEntry_missing_resolves :
  ~ In "e9" (entryIds Sample.store)
  /\ Storage.deleteEntry "e9" Sample.store = (Resolved tt, Sample.store).
Proof.
  split; [simpl; intros [H|[H|[]]]; discriminate | reflexivity].
Qed.

Lemma storedEntries_saved (entries : list KakeiboEntry)
    (categories : option (list Category)) (sync : option string) :
  storedEntries
    {| ENTRIES := Some entries; CATEGORIES := categories; LAST_SYNC := sync |}
  = entries.
Proof. reflexivity. Qed.

Lemma loadedCategories_saved (clock : nat -> string) (entries : option (list KakeiboEntry))
    (categories : list Category) (sync : option string) :
  loadedCategories clock
    {| ENTRIES := entries; CATEGORIES := Some categories; LAST_SYNC := sync |}
  = categories.
Proof. reflexivity. Qed.

Lemma spreadEntry_id (updates : Entry.partial) (now : string) (old : KakeiboEntry) :
  Entry.id_ updates = None ->
  Entry.id (Storage.spreadEntry old updates now) = Entry.id old.
Proof. intros H; unfold Storage.spreadEntry; simpl; now rewrite H. Qed.

Lemma spreadCategory_id (updates : Cat.partial) (old : Category) :
  Cat.id_ updates = None ->
  Cat.id (Storage.spreadCategory old updates) = Cat.id old.
Proof. intros H; unfold Storage.spreadCategory; simpl; now rewrite H. Qed.

(** C5, as the code has it. From a store whose entry identifiers and
    category identifiers are pairwise distinct: the delete operations keep
    them distinct; the add operations keep them distinct exactly when the
    identifier of the new element is not yet in the collection; the update
    operations keep them distinct when the updates carry no [id]. *)
Theorem identifiers_stay_distinct (now : string) (clock : nat -> string) (st : AsyncStorage) :
  NoDup (entryIds st) ->
  NoDup (categoryIds clock st) ->
  (forall id, NoDup (entryIds (snd (Storage.deleteEntry id st))))
  /\ (forall id,
        NoDup (categoryIds clock (snd (Storage.deleteCategory clock id st))))
  /\ (forall entry,
        NoDup (entryIds (snd (Storage.addEntry entry st)))
        <-> ~ In (Entry.id entry) (entryIds st))
  /\ (forall category,
        NoDup (categoryIds clock (snd (Storage.addCategory clock category st)))
        <-> ~ In (Cat.id category) (categoryIds clock st))
  /\ (forall id updates,
        Entry.id_ updates = None ->
        NoDup (entryIds (snd (Storage.updateEntry now id updates st))))
  /\ (forall id updates,
        Cat.id_ updates = None ->
        NoDup (categoryIds clock (snd (Storage.updateCategory clock id updates st)))).
Proof.
  unfold entryIds, categoryIds; intros He Hc; repeat split.
  - intros id.
    unfold Storage.deleteEntry, await; rewrite loadEntries_spec; simpl.
    now apply NoDup_map_filter.
  - intros id.
    unfold Storage.deleteCategory, await; rewrite loadCategories_spec; simpl.
    now apply NoDup_map_filter.
  - unfold Storage.addEntry, await; rewrite loadEntries_spec; simpl.
    rewrite storedEntries_saved, map_app; simpl.
    intros H; now apply NoDup_snoc in H.
  - unfold Storage.addEntry, await; rewrite loadEntries_spec; simpl.
    rewrite storedEntries_saved, map_app; simpl.
    intros H; now apply NoDup_snoc.
  - unfold Storage.addCategory, await; rewrite loadCategories_spec; simpl.
    rewrite loadedCategories_saved, map_app; simpl.
    intros H; now apply NoDup_snoc in H.
  - unfold Storage.addCategory, await; rewrite loadCategories_spec; simpl.
    rewrite loadedCategories_saved, map_app; simpl.
    intros H; now apply NoDup_snoc.
  - intros id updates Hid.
    unfold Storage.updateEntry, await; rewrite loadEntries_spec.
    destruct (JS.findIndex _ _); simpl; [|exact He].
    rewrite storedEntries_saved, modifyAt_map; [exact He|].
    intros x; now apply spreadEntry_id.
  - intros id updates Hid.
    unfold Storage.updateCategory, await; rewrite loadCategories_spec.
    destruct (JS.findIndex _ _); simpl; [|exact Hc].
    rewrite loadedCategories_saved, modifyAt_map; [exact Hc|].
    intros x; now apply spreadCategory_id.
Qed.

Lemma identifiers_stay_distinct_witness :
  NoDup (entryIds
           (snd (Storage.updateEntry "2026-01-05T00:00:00.000Z" "e1"
                   Sample.newAmount Sample.store))).
Proof.
  refine (proj1 (proj2 (proj2 (proj2 (proj2
            (identifiers_stay_distinct "2026-01-05T00:00:00.000Z" Sample.clock
                   Sample.store
               _ _)))))
          "e1" Sample.newAmount eq_refl).
  - simpl; repeat constructor; simpl; intros H;
      repeat (destruct H as [H|H]; try discriminate); exact H.
  - simpl; repeat constructor; simpl; intros H;
      repeat (destruct H as [H|H]; try discriminate); exact H.
Defined.

(** C5 as stated fails: [addEntry] does not look at the identifiers in the
    store, and an entry whose identifier is already there is appended. *)
Lemma addEntry_duplicates_identifier :
  NoDup (entryIds Sample.store)
  /\ ~ NoDup (entryIds
                (snd (Storage.addEntry (Sample.entry "e1" "default_2" 300)
                        Sample.store))).
Proof.
  split.
  - simpl; repeat constructor; simpl; intros H;
      repeat (destruct H as [H|H]; try discriminate); exact H.
  - simpl; intros H; inversion H as [|? ? Hnotin _]; subst.
    apply Hnotin; right; now left.
Qed.

(** ** Ingestion *)

Lemma addEntry_spec (entry : KakeiboEntry) (st : AsyncStorage) :
  Storage.addEntry entry st
  = (Resolved tt,
     {| ENTRIES := Some (storedEntries st ++ [entry])%list;
        CATEGORIES := CATEGORIES st;
        LAST_SYNC := LAST_SYNC st |}).
Proof. unfold Storage.addEntry, await; now rewrite loadEntries_spec. Qed.

Lemma forOf_cons {A : Type} (x : A) (l : list A) (body : A -> Promise unit)
    (st : AsyncStorage) :
  forOf (x :: l) body st
  = match body x st with
    | (Resolved _, st') => forOf l body st'
    | (Rejected message, st') => (Rejected message, st')
    end.
Proof. reflexivity. Qed.

Lemma forOf_addEntry {A : Type} (build : A -> KakeiboEntry) (l : list A)
    (st : AsyncStorage) :
  fst (forOf l (fun x => Storage.addEntry (build x)) st) = Resolved tt
  /\ storedEntries (snd (forOf l (fun x => Storage.addEntry (build x)) st))
     = (storedEntries st ++ List.map build l)%list.
Proof.
  revert st; induction l as [|x l IH]; intros st.
  - simpl; now rewrite app_nil_r.
  - rewrite forOf_cons, addEntry_spec.
    match goal with
    | |- context [forOf l _ ?s] => destruct (IH s) as [Hfst Hsnd]
    end.
    rewrite Hfst, Hsnd, storedEntries_saved; simpl; now rewrite <- app_assoc.
Qed.

Lemma map_mapi_from {A B C : Type} (g : B -> C) (f : A -> nat -> B)
    (l : list A) (n : nat) :
  List.map g (mapi_from n f l) = mapi_from n (fun x k => g (f x k)) l.
Proof.
  revert n; induction l as [|x l IH]; intros n; simpl; [reflexivity|].
  now rewrite IH.
Qed.

(** What the scan screen does with a successful analysis of N >= 1 line
    items: N entries are appended, one per item and in order, and it
    reports N saved. *)
Lemma analyzeImage_appends (ticks : nat -> Tick) (result : AIAnalysisResult)
    (imageUri : string) (st : AsyncStorage) :
  result_entries result <> [] ->
  fst (Scan.analyzeImage ticks (Resolved result) imageUri st)
  = AlertSaved (List.length (result_entries result))
  /\ storedEntries (snd (Scan.analyzeImage ticks (Resolved result) imageUri st))
     = (storedEntries st
        ++ mapi (fun entry k => Scan.kakeiboEntry imageUri entry (ticks k))
                (result_entries result))%list.
Proof.
  intros Hne; unfold Scan.analyzeImage, await at 1 3.
  destruct (result_entries result) as [|item items] eqn:Hitems; [contradiction|].
  cbn [List.length Nat.eqb].
  set (pairs := mapi (fun entry k => (entry, ticks k)) (item :: items)).
  set (build := fun p : AnalysisItem * Tick =>
                  Scan.kakeiboEntry imageUri (fst p) (snd p)).
  assert (Hbody : forall s,
             forOf pairs (fun '(entry, tick) =>
                            Storage.addEntry (Scan.kakeiboEntry imageUri entry tick)) s
             = forOf pairs (fun p => Storage.addEntry (build p)) s).
  { intros s; generalize pairs; clear; intros pairs; revert s.
    induction pairs as [|[e t] pairs IH]; intros s; simpl; [reflexivity|].
    unfold await; destruct (Storage.addEntry _ s) as [[[]|msg] s']; auto. }
  unfold await; rewrite Hbody.
  destruct (forOf_addEntry build pairs st) as [Hfst Hsnd].
  destruct (forOf pairs _ st) as [[[]|msg] st'] eqn:Hrun; simpl in *;
    [|discriminate].
  split; [reflexivity|].
  rewrite Hsnd; f_equal; unfold pairs, mapi.
  now rewrite map_mapi_from.
Qed.

(** C3 at the input 電車: the scan screen stores the guess as it came, where
    the normalizer would have answered 交通費; the repository's other copy of
    the screen stores the fixed id default_0. One entry is written. *)
Theorem scan_stores_guess_unnormalized :
  List.map Entry.categoryId
    (storedEntries
       (snd (Scan.analyzeImage Sample.ticks (Resolved Sample.trainFare)
               "file:///ledger.jpg" Sample.emptyStore)))
  = ["電車"]
  /\ List.map (fun item =>
                 AiAnalysis.normalizeCategoryName JS.asciiLowerCase
                   (suggestedCategory item))
              (result_entries Sample.trainFare)
     = ["交通費"]
  /\ List.map Entry.categoryId
       (storedEntries
          (snd (ScanPlain.analyzeImage Sample.ticks (Resolved Sample.trainFare)
                  "file:///ledger.jpg" Sample.emptyStore)))
     = ["default_0"].
Proof. repeat split; vm_compute; reflexivity. Qed.


(** * Further properties of the stores *)

Lemma findIndex_Some {A : Type} (p : A -> bool) (l : list A) (i : nat) :
  JS.findIndex p l = Some i ->
  exists pre x post,
    l = (pre ++ x :: post)%list /\ List.length pre = i /\ p x = true
    /\ forall y, In y pre -> p y = false.
Proof.
  revert i; induction l as [|x l IH]; intros i; simpl; [discriminate|].
  destruct (p x) eqn:Hx.
  - intros [= <-]; exists [], x, l; repeat split; auto; intros y [].
  - destruct (JS.findIndex p l) as [j|]; [|discriminate].
    intros [= <-]; destruct (IH j eq_refl) as (pre & z & post & -> & Hlen & Hz & Hpre).
    exists (x :: pre), z, post; repeat split; simpl; auto.
    intros y [<-|Hy]; auto.
Qed.

Lemma modifyAt_middle {A : Type} (f : A -> A) (pre post : list A) (x : A) :
  JS.modifyAt (List.length pre) f (pre ++ x :: post)%list
  = (pre ++ f x :: post)%list.
Proof. induction pre as [|y pre IH]; simpl; [reflexivity | now rewrite IH]. Qed.

Lemma filter_ids_fresh {A : Type} (key : A -> string) (id : string) (l : list A) :
  ~ In id (List.map key l) ->
  List.filter (fun x => negb (String.eqb (key x) id)) l = l.
Proof.
  intros H; apply filter_all; intros x Hx.
  now rewrite (not_in_ids_eqb key id l H x Hx).
Qed.

(** X1. An entry added under an identifier the store does not hold yet is
    read back as the last element, every field as it was given, after the
    entries that were there; deleting that identifier again gives back the
    collection as it was before. *)
Theorem addEntry_round_trip (entry : KakeiboEntry) (st : AsyncStorage) :
  ~ In (Entry.id entry) (entryIds st) ->
  fst (Storage.loadEntries (snd (Storage.addEntry entry st)))
  = Resolved (storedEntries st ++ [entry])%list
  /\ storedEntries
       (snd (Storage.deleteEntry (Entry.id entry)
               (snd (Storage.addEntry entry st))))
     = storedEntries st.
Proof.
  intros Hfresh; rewrite addEntry_spec, loadEntries_spec; split; [reflexivity|].
  unfold Storage.deleteEntry, await; rewrite loadEntries_spec.
  cbn [snd]; rewrite !storedEntries_saved, filter_app; simpl.
  rewrite String.eqb_refl; simpl; rewrite app_nil_r.
  now apply filter_ids_fresh.
Qed.

Lemma addEntry_round_trip_witness :
  storedEntries
    (snd (Storage.deleteEntry "e3"
            (snd (Storage.addEntry (Sample.entry "e3" "default_2" 300)
                    Sample.store))))
  = Sample.halfKnown.
Proof.
  refine (proj2 (addEntry_round_trip (Sample.entry "e3" "default_2" 300)
                   Sample.store _)).
  simpl; intros [H|[H|[]]]; discriminate.
Defined.

(** X2. [updateEntry] with an identifier that an entry carries resolves
    and rewrites the first entry with that identifier, in place: the
    entries before and after it are stored as they were, also those that
    carry the same identifier further down.  In the rewritten entry every
    field whose key the update carries has the update's value and every
    other field has the old value, except [updatedAt], which is the time
    of the call even where the update carries another one. *)
Theorem updateEntry_present (now id : string) (updates : Entry.partial)
    (st : AsyncStorage) :
  In id (entryIds st) ->
  exists pre old post,
    storedEntries st = (pre ++ old :: post)%list
    /\ Entry.id old = id
    /\ ~ In id (List.map Entry.id pre)
    /\ Storage.updateEntry now id updates st
       = (Resolved tt,
          {| ENTRIES :=
               Some (pre
                     ++ {| Entry.id := spreadField (Entry.id_ updates) (Entry.id old);
                           Entry.date :=
                             spreadField (Entry.date_ updates) (Entry.date old);
                           Entry.itemName :=
                             spreadField (Entry.itemName_ updates)
                                         (Entry.itemName old);
                           Entry.amount :=
                             spreadField (Entry.amount_ updates) (Entry.amount old);
                           Entry.categoryId :=
                             spreadField (Entry.categoryId_ updates)
                                         (Entry.categoryId old);
                           Entry.categoryName :=
                             spreadField (option_map Some (Entry.categoryName_ updates))
                                         (Entry.categoryName old);
                           Entry.note :=
                             spreadField (option_map Some (Entry.note_ updates))
                                         (Entry.note old);
                           Entry.imageUri :=
                             spreadField (option_map Some (Entry.imageUri_ updates))
                                         (Entry.imageUri old);
                           Entry.createdAt :=
                             spreadField (Entry.createdAt_ updates)
                                         (Entry.createdAt old);
                           Entry.updatedAt := now |}
                     :: post)%list;
             CATEGORIES := CATEGORIES st;
             LAST_SYNC := LAST_SYNC st |}).
Proof.
  unfold entryIds; intros Hin.
  unfold Storage.updateEntry, await; rewrite loadEntries_spec.
  destruct (JS.findIndex (fun e => String.eqb (Entry.id e) id) (storedEntries st))
    as [index|] eqn:Hfind.
  - destruct (findIndex_Some _ _ _ Hfind) as (pre & old & post & Hl & Hlen & Hold & Hpre).
    exists pre, old, post; rewrite Hl, <- Hlen, modifyAt_middle.
    split; [reflexivity|]; split; [now apply String.eqb_eq|]; split.
    + intros Hp; apply in_map_iff in Hp; destruct Hp as [y [Hy Hyin]].
      specialize (Hpre y Hyin); apply String.eqb_neq in Hpre; contradiction.
    + unfold Storage.saveEntries, Storage.spreadEntry, spreadField.
      destruct updates as [i d n a c cn nt im cr up]; cbn.
      destruct cn, nt, im; reflexivity.
  - exfalso; apply in_map_iff in Hin; destruct Hin as [e [He Hein]].
    rewrite findIndex_None in Hfind; specialize (Hfind e Hein).
    apply String.eqb_neq in Hfind; contradiction.
Qed.

Lemma updateEntry_present_witness :
  Storage.updateEntry "2026-01-05T00:00:00.000Z" "e2" Sample.newAmount
    Sample.store
  = (Resolved tt,
     {| ENTRIES :=
          Some [ Sample.entry "e1" "default_0" 500;
                 {| Entry.id := "e2"; Entry.date := "2026-01-04";
                    Entry.itemName := "買い物"; Entry.amount := 800;
                    Entry.categoryId := "食費"; Entry.categoryName := None;
                    Entry.note := None; Entry.imageUri := None;
                    Entry.createdAt := "2026-01-04T09:00:00.000Z";
                    Entry.updatedAt := "2026-01-05T00:00:00.000Z" |} ];
        CATEGORIES := Some Sample.categories;
        LAST_SYNC := None |}).
Proof.
  destruct (updateEntry_present "2026-01-05T00:00:00.000Z" "e2" Sample.newAmount
              Sample.store)
    as (pre & old & post & Hl & Hid & Hpre & Hupdate).
  - simpl; right; now left.
  - rewrite Hupdate; clear Hupdate.
    destruct pre as [|e1 [|e2 pre]]; simpl in Hl.
    + injection Hl as <- _; discriminate Hid.
    + injection Hl as <- <- <-; reflexivity.
    + injection Hl as _ <- _; exfalso; apply Hpre; simpl; right; now left.
Defined.

(** X3. [deleteEntry] and [deleteCategory] always resolve; afterwards no
    element carries the identifier, even if several did, and the elements
    with another identifier are all still there; deleting the same
    identifier again changes nothing. *)
Theorem delete_removes_every_match (clock : nat -> string) (id : string) (st : AsyncStorage) :
  (fst (Storage.deleteEntry id st) = Resolved tt
   /\ ~ In id (entryIds (snd (Storage.deleteEntry id st)))
   /\ (forall e, In e (storedEntries (snd (Storage.deleteEntry id st)))
                 <-> In e (storedEntries st) /\ Entry.id e <> id)
   /\ Storage.deleteEntry id (snd (Storage.deleteEntry id st))
      = (Resolved tt, snd (Storage.deleteEntry id st)))
  /\ (fst (Storage.deleteCategory clock id st) = Resolved tt
      /\ ~ In id (categoryIds clock (snd (Storage.deleteCategory clock id st)))
      /\ (forall c, In c (loadedCategories clock
                            (snd (Storage.deleteCategory clock id st)))
                    <-> In c (loadedCategories clock st) /\ Cat.id c <> id)
      /\ Storage.deleteCategory clock id (snd (Storage.deleteCategory clock id st))
         = (Resolved tt, snd (Storage.deleteCategory clock id st))).
Proof.
  assert (Hflt : forall (A : Type) (key : A -> string) (l : list A) (x : A),
             In x (List.filter (fun x => negb (String.eqb (key x) id)) l)
             <-> In x l /\ key x <> id).
  { intros A key l x; rewrite filter_In, negb_true_iff, String.eqb_neq; tauto. }
  assert (Hnot : forall (A : Type) (key : A -> string) (l : list A),
             ~ In id (List.map key
                        (List.filter (fun x => negb (String.eqb (key x) id)) l))).
  { intros A key l Hin; apply in_map_iff in Hin; destruct Hin as [x [Hx Hin]].
    apply Hflt in Hin; tauto. }
  split.
  - unfold entryIds, Storage.deleteEntry, await; rewrite loadEntries_spec.
    cbn [fst snd Storage.saveEntries]; rewrite loadEntries_spec.
    rewrite storedEntries_saved.
    split; [reflexivity | split; [apply Hnot | split]].
    + intros e; apply (Hflt _ Entry.id).
    + cbn [Storage.saveEntries ENTRIES CATEGORIES LAST_SYNC].
      rewrite (filter_ids_fresh Entry.id id _ (Hnot _ Entry.id _)); reflexivity.
  - unfold categoryIds, Storage.deleteCategory, await.
    rewrite loadCategories_spec.
    cbn [fst snd Storage.saveCategories]; rewrite loadCategories_spec.
    rewrite loadedCategories_saved.
    split; [reflexivity | split; [apply Hnot | split]].
    + intros c; apply (Hflt _ Cat.id).
    + cbn [Storage.saveCategories ENTRIES CATEGORIES LAST_SYNC].
      rewrite (filter_ids_fresh Cat.id id _ (Hnot _ Cat.id _)); reflexivity.
Qed.

(** X4. The first read of the categories from a store that has none
    creates the nine default categories, in the order of
    [DEFAULT_CATEGORIES] and under the identifiers default_0 to default_8,
    and persists them.  The clock is read anew for each category while the
    list is built, so the creation time of the category at index [i] is the
    reading [clock i] and the nine time stamps need not agree.  Whatever
    the store holds, a second read, whatever the clock then shows, returns
    what the first one returned and writes nothing: the defaults are
    created once and keep the time stamps of the first read. *)
Theorem loadCategories_bootstraps_once (clock later : nat -> string)
    (st : AsyncStorage) (entries : option (list KakeiboEntry))
    (sync : option string) :
  Storage.loadCategories clock
    {| ENTRIES := entries; CATEGORIES := None; LAST_SYNC := sync |}
  = (Resolved (Storage.defaultCategories clock),
     {| ENTRIES := entries;
        CATEGORIES := Some (Storage.defaultCategories clock);
        LAST_SYNC := sync |})
  /\ List.map (fun c => (Cat.id c, Cat.name c)) (Storage.defaultCategories clock)
     = [ ("default_0", "食費"); ("default_1", "日用品"); ("default_2", "交通費");
         ("default_3", "娯楽"); ("default_4", "医療費"); ("default_5", "教育費");
         ("default_6", "光熱費"); ("default_7", "通信費"); ("default_8", "その他") ]
  /\ List.map Cat.createdAt (Storage.defaultCategories clock)
     = List.map clock (List.seq 0 9)
  /\ Storage.loadCategories later (snd (Storage.loadCategories clock st))
     = (fst (Storage.loadCategories clock st), snd (Storage.loadCategories clock st))
  /\ fst (Storage.loadCategories later
            (snd (Storage.loadCategories clock
                    {| ENTRIES := entries; CATEGORIES := None;
                       LAST_SYNC := sync |})))
     = Resolved (Storage.defaultCategories clock).
Proof.
  split; [reflexivity|]; split; [reflexivity|]; split; [reflexivity|]; split.
  - rewrite loadCategories_spec; cbn [fst snd]; rewrite loadCategories_spec.
    reflexivity.
  - reflexivity.
Qed.

(** X5. [clearAllData] resolves and removes all three keys: a reader then
    finds no entry, whatever was stored, and the next read of the categories
    creates the defaults anew, so categories the user had added or renamed
    are gone; the home screen loaded next shows no entry, the default
    categories, a total of 0 and an empty breakdown. *)
Theorem clearAllData_resets (newDate : string -> option JS.Date) (clock : nat -> string)
    (y m : Z) (state : Home.State) (st : AsyncStorage) :
  fst (Storage.clearAllData st) = Resolved tt
  /\ fst (Storage.loadEntries (snd (Storage.clearAllData st))) = Resolved []
  /\ fst (Storage.loadCategories clock (snd (Storage.clearAllData st)))
     = Resolved (Storage.defaultCategories clock)
  /\ LAST_SYNC (snd (Storage.clearAllData st)) = None
  /\ (exists summary,
        fst (Home.loadData newDate clock y m state (snd (Storage.clearAllData st)))
        = {| Home.entries := [];
             Home.categories := Storage.defaultCategories clock;
             Home.monthlySummary := Some summary |}
        /\ totalAmount summary = 0
        /\ entryCount summary = 0%nat
        /\ categoryBreakdown summary = []).
Proof.
  repeat split; eexists; repeat split.
Qed.

(** X6. [getEntriesByMonth] never writes, and returns the stored entries
    whose date parses and falls in the month asked for, in the order in
    which they are stored and each as often as it is stored: what is
    returned and what is left out make up the stored collection, every
    returned entry falls in the month and no entry left out does.  An
    entry with a date that parses is returned for one (year, month) pair
    only, and an entry whose date does not parse is returned for none. *)
Theorem getEntriesByMonth_selects (newDate : string -> option JS.Date)
    (y m : Z) (st : AsyncStorage) :
  snd (Storage.getEntriesByMonth newDate y m st) = st
  /\ (exists selected dropped,
        fst (Storage.getEntriesByMonth newDate y m st) = Resolved selected
        /\ Permutation (storedEntries st) (selected ++ dropped)%list
        /\ Subsequence selected (storedEntries st)
        /\ (forall e, In e selected -> InMonth newDate y m e)
        /\ (forall e, In e dropped -> ~ InMonth newDate y m e)
        /\ (forall e y' m',
              In e selected ->
              In e (List.filter (Storage.inMonth newDate y' m')
                                (storedEntries st)) ->
              (y', m') = (y, m))
        /\ (forall e, In e selected -> newDate (Entry.date e) <> None)).
Proof.
  rewrite getEntriesByMonth_spec; split; [reflexivity|].
  assert (Hin : forall y0 m0 e,
             Storage.inMonth newDate y0 m0 e = true <-> InMonth newDate y0 m0 e).
  { intros y0 m0 e; unfold Storage.inMonth, InMonth.
    destruct (newDate (Entry.date e)) as [d|].
    - rewrite andb_true_iff, !Z.eqb_eq; split.
      + intros [H1 H2]; now exists d.
      + intros [d' [[= <-] H]]; exact H.
    - split; [discriminate | intros [d [H _]]; discriminate]. }
  exists (List.filter (Storage.inMonth newDate y m) (storedEntries st)),
         (List.filter (fun e => negb (Storage.inMonth newDate y m e))
                      (storedEntries st)).
  split; [reflexivity|]; split; [|split; [|split; [|split; [|split]]]].
  - generalize (storedEntries st); intros l.
    induction l as [|e l IH]; simpl; [constructor|].
    destruct (Storage.inMonth newDate y m e); simpl.
    + now constructor.
    + now apply Permutation_cons_app.
  - generalize (storedEntries st); intros l.
    induction l as [|e l IH]; simpl; [constructor|].
    destruct (Storage.inMonth newDate y m e); now constructor.
  - intros e H; apply filter_In in H; now apply Hin.
  - intros e H HM; apply filter_In in H; destruct H as [_ H].
    apply Hin in HM; rewrite HM in H; discriminate.
  - intros e y' m' H1 H2; apply filter_In in H1, H2.
    destruct H1 as [_ H1], H2 as [_ H2]; apply Hin in H1, H2.
    destruct H1 as [d [Hd [<- <-]]], H2 as [d' [Hd' [<- <-]]].
    rewrite Hd in Hd'; now inversion Hd'.
  - intros e H; apply filter_In in H; destruct H as [_ H].
    apply Hin in H; destruct H as [d [Hd _]]; rewrite Hd; discriminate.
Qed.

(** ** Sorting by a key *)

Section SortedFacts.
Context {A : Type} (cmp : A -> A -> Z) (key : A -> Z) (P : A -> Prop).
Hypothesis cmp_key : forall a b, P a -> P b -> cmp a b = key b - key a.

Local Abbreviation descending := (fun a b : A => key b <= key a).

Lemma insert_In (x y : A) (l : list A) :
  In y (JS.insert cmp x l) <-> y = x \/ In y l.
Proof.
  split; intros H.
  - apply (Permutation_in _ (insert_perm cmp x l)) in H.
    destruct H as [<-|H]; auto.
  - apply (Permutation_in _ (Permutation_sym (insert_perm cmp x l))).
    destruct H as [->|H]; [now left | now right].
Qed.

Lemma insert_sorted (x : A) (l : list A) :
  P x -> Forall P l -> StronglySorted descending l ->
  StronglySorted descending (JS.insert cmp x l).
Proof.
  intros Hx Hl Hs; induction Hs as [|y l Hs IH Hy]; simpl.
  - repeat constructor.
  - inversion Hl as [|? ? Py Pl]; subst.
    rewrite (cmp_key y x Py Hx).
    destruct (Z.leb_spec (key x - key y) 0) as [Hle|Hgt].
    + constructor; [now apply IH|].
      apply Forall_forall; intros z Hz; apply insert_In in Hz.
      destruct Hz as [->|Hz]; [lia|].
      rewrite Forall_forall in Hy; now apply Hy.
    + constructor; [now constructor|].
      constructor; [lia|].
      apply Forall_forall; intros z Hz.
      rewrite Forall_forall in Hy; specialize (Hy z Hz).
      simpl in Hy; lia.
Qed.

Lemma sort_from_sorted (l acc : list A) :
  Forall P l -> Forall P acc -> StronglySorted descending acc ->
  StronglySorted descending
    (List.fold_left (fun acc x => JS.insert cmp x acc) l acc).
Proof.
  intros Hl; revert acc; induction Hl as [|x l Hx Hl IH]; intros acc Hacc Hs.
  - exact Hs.
  - simpl; apply IH; [|now apply insert_sorted].
    apply Forall_forall; intros z Hz; apply insert_In in Hz.
    destruct Hz as [->|Hz]; [exact Hx|].
    rewrite Forall_forall in Hacc; now apply Hacc.
Qed.

Lemma sort_sorted (l : list A) :
  Forall P l -> StronglySorted descending (JS.sort cmp l).
Proof.
  intros Hl; apply sort_from_sorted; [exact Hl | constructor | constructor].
Qed.

Lemma insert_last (x : A) (l : list A) :
  P x -> Forall P l -> Forall (fun y => key x <= key y) l ->
  JS.insert cmp x l = (l ++ [x])%list.
Proof.
  intros Hx Hl Hle; induction Hl as [|y l Py Pl IH]; simpl; [reflexivity|].
  inversion Hle; subst.
  rewrite (cmp_key y x Py Hx).
  destruct (Z.leb_spec (key x - key y) 0); [|lia].
  now rewrite IH.
Qed.

Lemma sort_from_sorted_id (l acc : list A) :
  Forall P (acc ++ l)%list -> StronglySorted descending (acc ++ l)%list ->
  List.fold_left (fun acc x => JS.insert cmp x acc) l acc = (acc ++ l)%list.
Proof.
  revert acc; induction l as [|x l IH]; intros acc HP Hs; simpl.
  - now rewrite app_nil_r.
  - assert (Hcons : (acc ++ x :: l)%list = ((acc ++ [x]) ++ l)%list)
      by (now rewrite <- app_assoc).
    rewrite insert_last.
    + rewrite IH; [now rewrite <- app_assoc | now rewrite <- Hcons
                                            | now rewrite <- Hcons].
    + rewrite Forall_forall in HP; apply HP, in_or_app; right; now left.
    + apply Forall_forall; intros z Hz.
      rewrite Forall_forall in HP; apply HP, in_or_app; now left.
    + clear IH HP Hcons; induction acc as [|a acc IHacc]; [constructor|].
      simpl in Hs; inversion Hs as [|? ? Hs' Ha]; subst.
      constructor; [|now apply IHacc].
      rewrite Forall_forall in Ha; apply Ha, in_or_app; right; now left.
Qed.

Lemma sort_sorted_id (l : list A) :
  Forall P l -> StronglySorted descending l -> JS.sort cmp l = l.
Proof. intros HP Hs; unfold JS.sort; now rewrite sort_from_sorted_id. Qed.
End SortedFacts.

(** ** CSV export *)

Lemma byDateDescending_timeOf (newDate : string -> option JS.Date)
    (a b : KakeiboEntry) :
  newDate (Entry.date a) <> None -> newDate (Entry.date b) <> None ->
  Storage.byDateDescending newDate a b = timeOf newDate b - timeOf newDate a.
Proof.
  unfold Storage.byDateDescending, timeOf; intros Ha Hb.
  destruct (newDate (Entry.date a)), (newDate (Entry.date b)); congruence.
Qed.

Lemma fold_left_append {A : Type} (row : A -> string) (l : list A) (start : string) :
  List.fold_left (fun csv x => csv ++ row x) l start
  = start ++ String.concat "" (List.map row l).
Proof.
  revert start; induction l as [|x l IH]; intros start.
  - simpl; clear; induction start as [|c start IH]; simpl; congruence.
  - cbn [List.fold_left List.map]; rewrite IH.
    assert (Hconcat : String.concat "" (row x :: List.map row l)
                      = row x ++ String.concat "" (List.map row l)).
    { destruct (List.map row l) as [|r rs]; simpl; [|reflexivity].
      clear; induction (row x) as [|c r IH]; simpl; congruence. }
    rewrite Hconcat; clear.
    induction start as [|c start IH]; simpl; congruence.
Qed.

Lemma generateCSV_spec (newDate : string -> option JS.Date) (clock : nat -> string)
    (st : AsyncStorage) :
  Storage.generateCSV newDate clock st
  = (Resolved
       (Storage.csvHeader
        ++ String.concat ""
             (List.map (Storage.csvRow (csvCategoryMap (loadedCategories clock st)))
                (JS.sort (Storage.byDateDescending newDate) (storedEntries st)))),
     {| ENTRIES := ENTRIES st;
        CATEGORIES := Some (loadedCategories clock st);
        LAST_SYNC := LAST_SYNC st |}).
Proof.
  unfold Storage.generateCSV, await; rewrite loadEntries_spec, loadCategories_spec.
  unfold resolve; now rewrite fold_left_append.
Qed.

(** X7. The export always resolves, with the header followed by one row
    for each stored entry and nothing else; it sorts a copy, so the stored
    entries keep their order, and the only thing it may write is the default
    categories on their first read. *)
Theorem generateCSV_one_row_per_entry (newDate : string -> option JS.Date)
    (clock : nat -> string) (st : AsyncStorage) :
  exists rows,
    Permutation rows (storedEntries st)
    /\ fst (Storage.generateCSV newDate clock st)
       = Resolved
           (Storage.csvHeader
            ++ String.concat ""
                 (List.map
                    (Storage.csvRow (csvCategoryMap (loadedCategories clock st)))
                    rows))
    /\ ENTRIES (snd (Storage.generateCSV newDate clock st)) = ENTRIES st
    /\ loadedCategories clock (snd (Storage.generateCSV newDate clock st))
       = loadedCategories clock st.
Proof.
  rewrite generateCSV_spec.
  exists (JS.sort (Storage.byDateDescending newDate) (storedEntries st)).
  repeat split; apply sort_perm.
Qed.

(** X8. When every stored date parses, the rows of the export run from the
    newest date to the oldest; and a collection that is stored newest first
    is exported in its stored order, entries of the same date included. *)
Theorem generateCSV_newest_first (newDate : string -> option JS.Date)
    (clock : nat -> string) (st : AsyncStorage) :
  ValidDates newDate (storedEntries st) ->
  exists rows,
    fst (Storage.generateCSV newDate clock st)
    = Resolved
        (Storage.csvHeader
         ++ String.concat ""
              (List.map
                 (Storage.csvRow (csvCategoryMap (loadedCategories clock st)))
                 rows))
    /\ Permutation rows (storedEntries st)
    /\ NewestFirst newDate rows
    /\ (NewestFirst newDate (storedEntries st) -> rows = storedEntries st).
Proof.
  intros Hvalid; rewrite generateCSV_spec.
  exists (JS.sort (Storage.byDateDescending newDate) (storedEntries st)).
  split; [reflexivity|]; split; [apply sort_perm|]; split.
  - apply (sort_sorted _ (timeOf newDate)
             (fun e => newDate (Entry.date e) <> None));
      [apply byDateDescending_timeOf | exact Hvalid].
  - intros Hsorted.
    apply (sort_sorted_id _ (timeOf newDate)
             (fun e => newDate (Entry.date e) <> None));
      [apply byDateDescending_timeOf | exact Hvalid | exact Hsorted].
Qed.

Lemma generateCSV_newest_first_witness :
  exists rows,
    fst (Storage.generateCSV Sample.newDate Sample.clock
           Sample.store)
    = Resolved
        (Storage.csvHeader
         ++ String.concat ""
              (List.map
                 (Storage.csvRow
                    (csvCategoryMap
                       (loadedCategories Sample.clock Sample.store)))
                 rows))
    /\ Permutation rows (storedEntries Sample.store)
    /\ NewestFirst Sample.newDate rows
    /\ (NewestFirst Sample.newDate (storedEntries Sample.store) ->
        rows = storedEntries Sample.store).
Proof.
  apply (generateCSV_newest_first Sample.newDate Sample.clock
           Sample.store).
  repeat constructor; simpl; discriminate.
Defined.

Lemma split_nonempty (sep : ascii) (s : string) :
  (1 <= List.length (JS.split sep s))%nat.
Proof.
  induction s as [|c s IH]; simpl; [lia|].
  destruct (Ascii.eqb c sep); simpl; [lia|].
  destruct (JS.split sep s); simpl; lia.
Qed.

Lemma split_after_separator (sep : ascii) (a b : string) :
  (2 <= List.length (JS.split sep (a ++ String sep b)))%nat.
Proof.
  induction a as [|c a IH]; simpl.
  - rewrite Ascii.eqb_refl; simpl.
    pose proof (split_nonempty sep b); lia.
  - destruct (Ascii.eqb c sep); simpl.
    + lia.
    + destruct (JS.split sep (a ++ String sep b)) as [|p ps]; simpl in *; lia.
Qed.

Lemma append_assoc (a b c : string) : (a ++ b) ++ c = a ++ (b ++ c).
Proof. induction a as [|x a IH]; simpl; congruence. Qed.

Lemma csv_has_two_pieces (rows : string) :
  String.eqb (Storage.csvHeader ++ rows) "" = false
  /\ (List.length (JS.split (ascii_of_nat 10) (Storage.csvHeader ++ rows))
      <=? 1)%nat = false.
Proof.
  split; [reflexivity|].
  apply Nat.leb_gt; unfold Storage.csvHeader, JS.newline.
  rewrite append_assoc; apply split_after_separator.
Qed.

(** X9. The settings screen never reports that there is nothing to export:
    what [generateCSV] returns always ends its header with a line feed and
    so splits into at least two pieces.  When the write and the share
    succeed the export is reported done and the file holds the generated
    text; for a store without entries that file is the header line alone.
    While an export is running a second tap does nothing. *)
Theorem handleExportCSV_always_exports (newDate : string -> option JS.Date)
    (clock : nat -> string) (today documentDirectory : string) (st : AsyncStorage) :
  (forall write share isExporting,
      fst (fst (Settings.handleExportCSV newDate clock today documentDirectory
                  write share isExporting st))
      <> NothingToExport)
  /\ (exists csvData,
        fst (Storage.generateCSV newDate clock st) = Resolved csvData
        /\ fst (Settings.handleExportCSV newDate clock today documentDirectory
                  (Resolved tt) (Resolved tt) false st)
           = (ExportDone ("kakeibo_export_" ++ today ++ ".csv"),
              Some (documentDirectory ++ "kakeibo_export_" ++ today ++ ".csv",
                    csvData))
        /\ (storedEntries st = [] -> csvData = Storage.csvHeader))
  /\ (forall write share,
        Settings.handleExportCSV newDate clock today documentDirectory
          write share true st
        = (ExportIgnored, None, st)).
Proof.
  split; [|split; [|reflexivity]].
  - intros write share isExporting; unfold Settings.handleExportCSV.
    destruct isExporting; [discriminate|].
    rewrite generateCSV_spec.
    destruct (csv_has_two_pieces
                (String.concat ""
                   (List.map
                      (Storage.csvRow (csvCategoryMap (loadedCategories clock st)))
                      (JS.sort (Storage.byDateDescending newDate)
                               (storedEntries st))))) as [H1 H2].
    rewrite H1, H2; simpl.
    destruct write; [destruct share|]; discriminate.
  - unfold Settings.handleExportCSV; rewrite generateCSV_spec.
    eexists; split; [reflexivity|].
    destruct (csv_has_two_pieces
                (String.concat ""
                   (List.map
                      (Storage.csvRow (csvCategoryMap (loadedCategories clock st)))
                      (JS.sort (Storage.byDateDescending newDate)
                               (storedEntries st))))) as [H1 H2].
    rewrite H1, H2; split; [reflexivity|].
    intros Hempty; rewrite Hempty; reflexivity.
Qed.

Lemma handleExportCSV_always_exports_witness :
  fst (Settings.handleExportCSV Sample.newDate Sample.clock
         "2026-01-05" "file:///documents/" (Resolved tt) (Resolved tt) false
         Sample.emptyStore)
  = (ExportDone "kakeibo_export_2026-01-05.csv",
     Some ("file:///documents/kakeibo_export_2026-01-05.csv", Storage.csvHeader)).
Proof.
  destruct (proj1 (proj2
              (handleExportCSV_always_exports Sample.newDate
                 Sample.clock "2026-01-05" "file:///documents/"
                 Sample.emptyStore)))
    as (csvData & _ & Hdone & Hheader).
  rewrite Hdone, (Hheader eq_refl); reflexivity.
Defined.

(** ** Category names on the home screen and in the export *)

Lemma get_set (V : Type) (m : JS.Map.t V) (k k' : string) (v : V) :
  JS.Map.get (JS.Map.set m k v) k'
  = if String.eqb k k' then Some v else JS.Map.get m k'.
Proof.
  induction m as [|[k0 v0] m IH]; simpl.
  - reflexivity.
  - destruct (String.eqb_spec k0 k) as [->|Hne]; simpl.
    + destruct (String.eqb k k'); reflexivity.
    + rewrite IH; destruct (String.eqb_spec k0 k') as [->|Hne'];
        [|reflexivity].
      destruct (String.eqb_spec k k'); [congruence | reflexivity].
Qed.

Lemma find_app {A : Type} (p : A -> bool) (l1 l2 : list A) :
  List.find p (l1 ++ l2)
  = match List.find p l1 with Some x => Some x | None => List.find p l2 end.
Proof.
  induction l1 as [|x l1 IH]; simpl; [reflexivity|].
  destruct (p x); [reflexivity | exact IH].
Qed.

(** The export's map keeps, for an id, the name of the last category that
    carries it. *)
Lemma csvCategoryMap_from (categories : list Category) (m : JS.Map.t string)
    (k : string) :
  JS.Map.get
    (List.fold_left (fun m c => JS.Map.set m (Cat.id c) (Cat.name c))
                    categories m) k
  = match List.find (fun c => String.eqb (Cat.id c) k) (List.rev categories) with
    | Some c => Some (Cat.name c)
    | None => JS.Map.get m k
    end.
Proof.
  revert m; induction categories as [|c categories IH]; intros m; simpl.
  - reflexivity.
  - rewrite IH, find_app, get_set; simpl.
    destruct (List.find (fun c => String.eqb (Cat.id c) k) (List.rev categories));
      [reflexivity|].
    destruct (String.eqb (Cat.id c) k); reflexivity.
Qed.

Lemma find_unique_id (categories : list Category) (k : string) (c : Category) :
  NoDup (List.map Cat.id categories) ->
  List.find (fun c => String.eqb (Cat.id c) k) categories = Some c
  <-> In c categories /\ Cat.id c = k.
Proof.
  intros Hnd; split.
  - intros H; apply find_some in H; now rewrite String.eqb_eq in H.
  - induction categories as [|x categories IH]; intros [Hin Hk]; [contradiction|].
    simpl in *; inversion Hnd as [|? ? Hx Hrest]; subst.
    destruct Hin as [->|Hin]; [now rewrite String.eqb_refl|].
    destruct (String.eqb_spec (Cat.id x) (Cat.id c)) as [Heq|Hne].
    + exfalso; apply Hx; rewrite Heq; now apply in_map.
    + now apply IH.
Qed.

Lemma find_rev_unique (categories : list Category) (k : string) :
  NoDup (List.map Cat.id categories) ->
  List.find (fun c => String.eqb (Cat.id c) k) (List.rev categories)
  = List.find (fun c => String.eqb (Cat.id c) k) categories.
Proof.
  intros Hnd.
  assert (Hrev : NoDup (List.map Cat.id (List.rev categories))).
  { rewrite map_rev; apply (Permutation_NoDup (Permutation_rev _) Hnd). }
  destruct (List.find (fun c => String.eqb (Cat.id c) k) (List.rev categories))
    as [c|] eqn:Hfind.
  - apply (find_unique_id _ _ _ Hrev) in Hfind; destruct Hfind as [Hin Hk].
    symmetry; apply (find_unique_id _ _ _ Hnd); split; [|exact Hk].
    now apply in_rev.
  - destruct (List.find (fun c => String.eqb (Cat.id c) k) categories)
      as [c|] eqn:Hfind'; [|reflexivity].
    apply find_some in Hfind'; destruct Hfind' as [Hin Hk].
    apply in_rev in Hin; pose proof (find_none _ _ Hfind c Hin) as Hno.
    simpl in Hno; congruence.
Qed.

(** X10. When the category identifiers are pairwise distinct, the category
    column of an entry's CSV row is the label the home screen shows for the
    entry: the name of the category with the entry's category id, or その他
    when there is none or its name is empty. *)
Theorem csvRow_label_is_home_label (categories : list Category)
    (entry : KakeiboEntry) :
  NoDup (List.map Cat.id categories) ->
  Storage.csvRow (csvCategoryMap categories) entry
  = Entry.date entry ++ "," ++ JS.quote ++ Entry.itemName entry ++ JS.quote
    ++ "," ++ JS.numberToString (Entry.amount entry)
    ++ "," ++ JS.quote ++ Home.categoryLabel categories entry ++ JS.quote
    ++ "," ++ JS.quote ++ JS.orElse (Entry.note entry) "" ++ JS.quote
    ++ JS.newline.
Proof.
  intros Hnd; unfold Storage.csvRow, Home.categoryLabel, csvCategoryMap.
  rewrite csvCategoryMap_from, (find_rev_unique _ _ Hnd).
  now destruct (List.find
                  (fun c => String.eqb (Cat.id c) (Entry.categoryId entry))
                  categories).
Qed.

Lemma csvRow_label_is_home_label_witness :
  Storage.csvRow (csvCategoryMap Sample.categories)
    (Sample.entry "e1" "default_2" 700)
  = "2026-01-04," ++ JS.quote ++ "買い物" ++ JS.quote ++ ",700,"
    ++ JS.quote ++ "交通費" ++ JS.quote ++ "," ++ JS.quote ++ JS.quote
    ++ JS.newline.
Proof.
  rewrite (csvRow_label_is_home_label Sample.categories
             (Sample.entry "e1" "default_2" 700)).
  - reflexivity.
  - simpl; repeat constructor; simpl; intros H;
      repeat (destruct H as [H|H]; try discriminate); exact H.
Defined.

(** ** What each item of the breakdown holds *)

Lemma set_keys_NoDup {V : Type} (m : JS.Map.t V) (k : string) (v : V) :
  NoDup (JS.Map.keys m) -> NoDup (JS.Map.keys (JS.Map.set m k v)).
Proof.
  induction m as [|[k0 v0] m IH]; simpl; intros H.
  - repeat constructor; intros [].
  - inversion H as [|? ? Hk0 Hm]; subst.
    destruct (String.eqb_spec k0 k) as [->|Hne]; simpl; [now constructor|].
    constructor; [|now apply IH].
    intros Hin; apply set_keys_In in Hin; destruct Hin as [Hin|Heq];
      [contradiction | congruence].
Qed.

Lemma set_Forall {V : Type} (Q : string * V -> Prop) (m : JS.Map.t V)
    (k : string) (v : V) :
  Q (k, v) -> Forall Q m -> Forall Q (JS.Map.set m k v).
Proof.
  intros Hkv; induction m as [|[k0 v0] m IH]; simpl; intros H.
  - now constructor.
  - inversion H; subst.
    destruct (String.eqb_spec k0 k) as [->|Hne]; constructor; auto.
Qed.

Lemma get_In_pair {V : Type} (m : JS.Map.t V) (k : string) (v : V) :
  NoDup (JS.Map.keys m) -> (In (k, v) m <-> JS.Map.get m k = Some v).
Proof.
  induction m as [|[k0 v0] m IH]; simpl; intros H.
  - split; [contradiction | discriminate].
  - inversion H as [|? ? Hk0 Hm]; subst.
    destruct (String.eqb_spec k0 k) as [->|Hne].
    + split.
      * intros [[= ->]|Hin]; [reflexivity|].
        exfalso; apply Hk0; now apply (in_map fst) in Hin.
      * intros [= ->]; now left.
    + rewrite <- (IH Hm); split.
      * intros [[= -> _]|Hin]; [contradiction | exact Hin].
      * now right.
Qed.

Lemma initCategoryMap_shape (categories : list Category) :
  NoDup (JS.Map.keys (initCategoryMap categories))
  /\ Forall (fromCategory categories) (initCategoryMap categories).
Proof.
  unfold initCategoryMap.
  assert (H : forall done todo m,
             categories = (done ++ todo)%list ->
             NoDup (JS.Map.keys m) -> Forall (fromCategory categories) m ->
             NoDup (JS.Map.keys
                      (List.fold_left
                         (fun m cat =>
                            JS.Map.set m (Cat.id cat)
                              {| data_name := Cat.name cat;
                                 data_color := Cat.color cat;
                                 data_amount := 0 |}) todo m))
             /\ Forall (fromCategory categories)
                  (List.fold_left
                     (fun m cat =>
                        JS.Map.set m (Cat.id cat)
                          {| data_name := Cat.name cat;
                             data_color := Cat.color cat;
                             data_amount := 0 |}) todo m)).
  { intros done todo; revert done.
    induction todo as [|c todo IH]; intros done m Hcat Hnd Hall; simpl.
    - now split.
    - apply (IH (done ++ [c])%list).
      + now rewrite <- app_assoc.
      + now apply set_keys_NoDup.
      + apply set_Forall; [|exact Hall].
        split; [reflexivity|]; exists c; simpl; repeat split.
        rewrite Hcat; apply in_or_app; right; now left. }
  apply (H [] categories []); [reflexivity | constructor | constructor].
Qed.

Lemma get_addToCategory (m : JS.Map.t CategoryData) (entry : KakeiboEntry)
    (k : string) :
  JS.Map.get (addToCategory m entry) k
  = option_map
      (bump (if String.eqb (Entry.categoryId entry) k
             then Entry.amount entry else 0))
      (JS.Map.get m k).
Proof.
  assert (Hzero : forall d, bump 0 d = d)
    by (intros [n c a]; unfold bump; simpl; f_equal; ring).
  unfold addToCategory.
  destruct (JS.Map.get m (Entry.categoryId entry)) as [cat|] eqn:Hget.
  - rewrite get_set.
    destruct (String.eqb_spec (Entry.categoryId entry) k) as [<-|Hne].
    + now rewrite Hget.
    + destruct (JS.Map.get m k); simpl; [now rewrite Hzero | reflexivity].
  - destruct (String.eqb_spec (Entry.categoryId entry) k) as [<-|Hne].
    + now rewrite Hget.
    + destruct (JS.Map.get m k); simpl; [now rewrite Hzero | reflexivity].
Qed.

Lemma get_accumulate_from (entries : list KakeiboEntry)
    (m : JS.Map.t CategoryData) (k : string) :
  JS.Map.get (List.fold_left addToCategory entries m) k
  = option_map (bump (categoryTotal k entries)) (JS.Map.get m k).
Proof.
  assert (Hzero : forall d, bump 0 d = d)
    by (intros [n c a]; unfold bump; simpl; f_equal; ring).
  revert m; induction entries as [|e entries IH]; intros m; simpl.
  - destruct (JS.Map.get m k); simpl; [now rewrite Hzero | reflexivity].
  - rewrite IH, get_addToCategory; unfold categoryTotal; simpl.
    destruct (JS.Map.get m k) as [d|]; simpl; [|reflexivity].
    f_equal; unfold bump; simpl; f_equal.
    destruct (String.eqb (Entry.categoryId e) k); simpl; ring.
Qed.

Lemma accumulate_keys_NoDup (entries : list KakeiboEntry)
    (categories : list Category) :
  NoDup (JS.Map.keys (accumulate entries categories)).
Proof.
  unfold accumulate.
  destruct (accumulate_from entries (initCategoryMap categories)) as (Hk & _).
  rewrite Hk; apply initCategoryMap_shape.
Qed.

(** The bindings of the accumulated map, one by one. *)
Lemma accumulate_In (entries : list KakeiboEntry) (categories : list Category)
    (k : string) (d : CategoryData) :
  In (k, d) (accumulate entries categories)
  <-> exists d0, In (k, d0) (initCategoryMap categories)
                 /\ d = bump (categoryTotal k entries) d0.
Proof.
  destruct (initCategoryMap_shape categories) as [Hnd _].
  rewrite (get_In_pair _ _ _ (accumulate_keys_NoDup entries categories)).
  unfold accumulate; rewrite get_accumulate_from.
  destruct (JS.Map.get (initCategoryMap categories) k) as [d0|] eqn:Hget; simpl.
  - apply (get_In_pair _ _ _ Hnd) in Hget; split.
    + intros [= <-]; now exists d0.
    + intros [d1 [Hin ->]]; apply (get_In_pair _ _ _ Hnd) in Hin.
      apply (get_In_pair _ _ _ Hnd) in Hget; congruence.
  - split; [discriminate|].
    intros [d1 [Hin _]]; apply (get_In_pair _ _ _ Hnd) in Hin; congruence.
Qed.

Lemma breakdown_item_origin (entries : list KakeiboEntry)
    (categories : list Category) (y m : Z) (b : BreakdownItem) :
  In b (categoryBreakdown (Home.calculateMonthlySummary entries categories y m))
  <-> 0 < bd_amount b
      /\ percentage b = Home.percentageOf (bd_amount b) (sumAmounts entries)
      /\ exists d0,
           In (bd_categoryId b, d0) (initCategoryMap categories)
           /\ bd_categoryName b = data_name d0
           /\ bd_categoryColor b = data_color d0
           /\ bd_amount b = data_amount d0 + categoryTotal (bd_categoryId b) entries.
Proof.
  rewrite breakdown_In; unfold Home.breakdownOfMap; rewrite in_map_iff; split.
  - intros [[[k d] [<- Hin]] Hpos]; simpl in *.
    apply accumulate_In in Hin; destruct Hin as [d0 [Hin ->]].
    split; [exact Hpos|]; split; [reflexivity|]; now exists d0.
  - intros (Hpos & Hpct & d0 & Hin & Hn & Hc & Ha); split; [|exact Hpos].
    exists (bd_categoryId b, bump (categoryTotal (bd_categoryId b) entries) d0).
    split; [|apply accumulate_In; now exists d0].
    destruct b as [bi bn bc ba bp]; simpl in *; subst; reflexivity.
Qed.

(** X11. Whatever the entries and categories, the breakdown of the monthly
    summary runs from the largest amount to the smallest, lists a category
    id at most once, lists only ids of known categories and only amounts
    above 0, so it is no longer than the category list; and the entry count
    is the number of entries given, matched or not. *)
Theorem breakdown_well_formed (entries : list KakeiboEntry)
    (categories : list Category) (y m : Z) :
  LargestFirst
    (categoryBreakdown (Home.calculateMonthlySummary entries categories y m))
  /\ NoDup (List.map bd_categoryId
             (categoryBreakdown
                (Home.calculateMonthlySummary entries categories y m)))
  /\ (forall b,
        In b (categoryBreakdown
                (Home.calculateMonthlySummary entries categories y m)) ->
        0 < bd_amount b
        /\ In (bd_categoryId b) (List.map Cat.id categories))
  /\ (List.length
        (categoryBreakdown (Home.calculateMonthlySummary entries categories y m))
      <= List.length categories)%nat
  /\ entryCount (Home.calculateMonthlySummary entries categories y m)
     = List.length entries.
Proof.
  assert (Hids : List.map bd_categoryId
                   (Home.breakdownOfMap (sumAmounts entries)
                      (accumulate entries categories))
                 = JS.Map.keys (accumulate entries categories)).
  { unfold Home.breakdownOfMap, JS.Map.keys; rewrite map_map.
    apply map_ext; now intros [k d]. }
  assert (Hnd : NoDup (List.map bd_categoryId
                         (categoryBreakdown
                            (Home.calculateMonthlySummary entries categories
                               y m)))).
  { simpl.
    apply (Permutation_NoDup
             (Permutation_sym (Permutation_map bd_categoryId (sort_perm _ _)))).
    apply NoDup_map_filter; rewrite Hids; apply accumulate_keys_NoDup. }
  assert (Hknown : forall b,
             In b (categoryBreakdown
                     (Home.calculateMonthlySummary entries categories y m)) ->
             0 < bd_amount b /\ In (bd_categoryId b) (List.map Cat.id categories)).
  { intros b Hb; apply breakdown_item_origin in Hb.
    destruct Hb as (Hpos & _ & d0 & Hin & _); split; [exact Hpos|].
    apply initCategoryMap_keys; now apply (in_map fst) in Hin. }
  split; [|split; [exact Hnd | split; [exact Hknown | split; [|reflexivity]]]].
  - apply (sort_sorted _ bd_amount (fun _ => True)); [reflexivity|].
    apply Forall_forall; intros; exact I.
  - assert (Hle : (List.length
                     (List.map bd_categoryId
                        (categoryBreakdown
                           (Home.calculateMonthlySummary entries categories
                              y m)))
                   <= List.length (List.map Cat.id categories))%nat).
    { apply NoDup_incl_length; [exact Hnd|].
      intros k Hk; apply in_map_iff in Hk; destruct Hk as [b [<- Hb]].
      now apply Hknown. }
    now rewrite !length_map in Hle.
Qed.










(** ** The normalizer's range *)

Section NormalizerRange.
Variable toLowerCase : string -> string.
Hypothesis fixes_keywords :
  forall k v, In (k, v) AiAnalysis.categoryMap -> toLowerCase k = k.

Lemma firstMatch_fixed (n : string) (table : list (string * string)) :
  (forall k v, In (k, v) table -> toLowerCase k = k) ->
  AiAnalysis.firstMatch toLowerCase n table
  = AiAnalysis.firstMatch (fun s => s) n table.
Proof.
  induction table as [|[k v] table IH]; intros H; simpl; [reflexivity|].
  rewrite (H k v (or_introl eq_refl)), IH; [reflexivity|].
  intros k' v' Hin; apply (H k' v'); now right.
Qed.

Lemma firstMatch_range (n : string) (table : list (string * string)) :
  AiAnalysis.firstMatch toLowerCase n table = "その他"
  \/ In (AiAnalysis.firstMatch toLowerCase n table) (List.map snd table).
Proof.
  induction table as [|[k v] table IH]; simpl; [now left|].
  destruct (JS.includes n (toLowerCase k)); [right; now left|].
  destruct IH as [IH|IH]; [now left | right; now right].
Qed.

Lemma normalizeCategoryName_in_range (guess : option string) :
  In (AiAnalysis.normalizeCategoryName toLowerCase guess) canonicalNames.
Proof.
  assert (Hother : In "その他" canonicalNames) by (vm_compute; tauto).
  unfold AiAnalysis.normalizeCategoryName.
  destruct guess as [s|]; [|exact Hother].
  destruct (String.eqb s ""); [exact Hother|].
  destruct (firstMatch_range (JS.trim (toLowerCase s)) AiAnalysis.categoryMap)
    as [->|Hin]; [exact Hother|].
  revert Hin; generalize (AiAnalysis.firstMatch toLowerCase
                            (JS.trim (toLowerCase s)) AiAnalysis.categoryMap).
  intros v Hin; simpl in Hin.
  repeat (destruct Hin as [<-|Hin]; [vm_compute; tauto|]).
  contradiction.
Qed.

Lemma normalizeCategoryName_canonical_fixed (name : string) :
  In name canonicalNames ->
  AiAnalysis.normalizeCategoryName toLowerCase (Some name) = name.
Proof.
  intros Hin; simpl in Hin.
  repeat (destruct Hin as [<-|Hin];
          [unfold AiAnalysis.normalizeCategoryName; cbn [String.eqb Ascii.eqb];
           match goal with
           | |- context [toLowerCase ?c] =>
               rewrite (fixes_keywords c c) by (vm_compute; tauto)
           end;
           rewrite firstMatch_fixed by exact fixes_keywords;
           vm_compute; reflexivity|]).
  contradiction.
Qed.

(** X15. Provided lower-casing leaves the keywords of the table as they
    are, the normalizer answers one of the nine canonical category names
    whatever the guess, leaves each canonical name as it is, and so gives
    the same answer when applied to its own answer. *)
Theorem normalizeCategoryName_idempotent :
  forall guess,
    In (AiAnalysis.normalizeCategoryName toLowerCase guess) canonicalNames
    /\ (forall name, In name canonicalNames ->
                     AiAnalysis.normalizeCategoryName toLowerCase (Some name)
                     = name)
    /\ AiAnalysis.normalizeCategoryName toLowerCase
         (Some (AiAnalysis.normalizeCategoryName toLowerCase guess))
       = AiAnalysis.normalizeCategoryName toLowerCase guess.
Proof.
  intros guess; split; [apply normalizeCategoryName_in_range|].
  split; [apply normalizeCategoryName_canonical_fixed|].
  apply normalizeCategoryName_canonical_fixed, normalizeCategoryName_in_range.
Qed.
End NormalizerRange.

Lemma normalizeCategoryName_idempotent_witness :
  AiAnalysis.normalizeCategoryName JS.asciiLowerCase
    (Some (AiAnalysis.normalizeCategoryName JS.asciiLowerCase
             (Some "Taxi タクシー代")))
  = AiAnalysis.normalizeCategoryName JS.asciiLowerCase (Some "Taxi タクシー代").
Proof.
  exact (proj2 (proj2 (normalizeCategoryName_idempotent JS.asciiLowerCase
                         asciiLowerCase_fixes_keywords
                         (Some "Taxi タクシー代")))).
Defined.

(** ** Month navigation *)

(** X16. From a month of 1..12 the previous-month button leads to the month
    one month earlier and the next-month button to the month one month
    later, both again months of 1..12 and across the year boundary; each
    button undoes the other; and the previous month is the month the trend
    series takes for one month back. *)
Theorem month_buttons_round_trip (y m : Z) :
  1 <= m <= 12 ->
  (1 <= snd (Analytics.handlePreviousMonth y m) <= 12
   /\ monthCount (Analytics.handlePreviousMonth y m) = monthCount (y, m) - 1)
  /\ (1 <= snd (Analytics.handleNextMonth y m) <= 12
      /\ monthCount (Analytics.handleNextMonth y m) = monthCount (y, m) + 1)
  /\ Analytics.handleNextMonth (fst (Analytics.handlePreviousMonth y m))
                               (snd (Analytics.handlePreviousMonth y m))
     = (y, m)
  /\ Analytics.handlePreviousMonth (fst (Analytics.handleNextMonth y m))
                                   (snd (Analytics.handleNextMonth y m))
     = (y, m)
  /\ Analytics.handlePreviousMonth y m = monthsBefore y m 1.
Proof.
  intros Hm.
  assert (Hback : Analytics.handlePreviousMonth y m = monthsBefore y m 1).
  { rewrite <- (wrap_monthsBefore y m 1) by lia.
    unfold Analytics.handlePreviousMonth.
    destruct (Z.eqb_spec m 1) as [H1|H1]; destruct (Z.leb_spec (m - 1) 0);
      try lia; [f_equal; lia | reflexivity]. }
  split; [|split; [|split; [|split; [|exact Hback]]]];
    unfold Analytics.handlePreviousMonth, Analytics.handleNextMonth, monthCount;
    destruct (Z.eqb_spec m 1) as [H1|H1]; destruct (Z.eqb_spec m 12) as [H12|H12];
    cbn [fst snd]; try lia;
    try (destruct (Z.eqb_spec (m - 1) 12); [lia|]);
    try (destruct (Z.eqb_spec (m + 1) 1); [lia|]);
    try (simpl; f_equal; lia).
Qed.

Lemma month_buttons_round_trip_witness :
  Analytics.handlePreviousMonth 2026 1 = (2025, 12)
  /\ Analytics.handleNextMonth 2025 12 = (2026, 1).
Proof.
  pose proof (month_buttons_round_trip 2026 1 ltac:(lia))
    as (_ & _ & Hnext & _ & Hprev).
  split; [rewrite Hprev; reflexivity | exact Hnext].
Defined.

(** ** Ingestion, in full *)

(** X17. What the scan screen does to the store in every case.  When the
    analysis fails it reports the failure and writes nothing.  Otherwise
    it appends one entry per line item, in the order of the items, each with
    the identifier and time stamps handed to its iteration, the image
    attached, and the guess (その他 when there is none) as both category id
    and category name; it reports that no data was found for zero items and
    the number saved otherwise, and never touches the categories. *)
Theorem analyzeImage_outcomes (ticks : nat -> Tick) (imageUri : string)
    (st : AsyncStorage) :
  (forall message,
      Scan.analyzeImage ticks (Rejected message) imageUri st
      = (AlertAnalysisFailed, st))
  /\ (forall result,
        storedEntries (snd (Scan.analyzeImage ticks (Resolved result) imageUri st))
        = (storedEntries st
           ++ mapi (fun entry k => Scan.kakeiboEntry imageUri entry (ticks k))
                   (result_entries result))%list
        /\ fst (Scan.analyzeImage ticks (Resolved result) imageUri st)
           = match result_entries result with
             | [] => AlertNoData
             | _ :: _ => AlertSaved (List.length (result_entries result))
             end
        /\ CATEGORIES (snd (Scan.analyzeImage ticks (Resolved result) imageUri st))
           = CATEGORIES st)
  /\ (forall entry tick,
        Entry.id (Scan.kakeiboEntry imageUri entry tick) = newId tick
        /\ Entry.categoryId (Scan.kakeiboEntry imageUri entry tick)
           = JS.orElse (suggestedCategory entry) "その他"
        /\ Entry.categoryName (Scan.kakeiboEntry imageUri entry tick)
           = Some (Entry.categoryId (Scan.kakeiboEntry imageUri entry tick))
        /\ Entry.imageUri (Scan.kakeiboEntry imageUri entry tick) = Some imageUri
        /\ Entry.categoryId (Scan.kakeiboEntry imageUri entry tick) <> "").
Proof.
  split; [reflexivity|]; split.
  - intros result.
    destruct (result_entries result) as [|item items] eqn:Hitems.
    + unfold Scan.analyzeImage, await; rewrite Hitems; simpl.
      now rewrite app_nil_r.
    + assert (Hne : result_entries result <> []) by (rewrite Hitems; discriminate).
      destruct (analyzeImage_appends ticks result imageUri st Hne) as [Hfst Hsnd].
      rewrite Hfst, Hsnd, Hitems; split; [reflexivity|]; split; [reflexivity|].
      unfold Scan.analyzeImage, await; rewrite Hitems.
      cbn [List.length Nat.eqb].
      set (pairs := mapi (fun entry k => (entry, ticks k)) (item :: items)).
      assert (Hcats : forall l s,
                 CATEGORIES
                   (snd (forOf l
                           (fun '(entry, tick) =>
                              Storage.addEntry
                                (Scan.kakeiboEntry imageUri entry tick)) s))
                 = CATEGORIES s).
      { induction l as [|[e t] l IH]; intros s; [reflexivity|].
        rewrite forOf_cons, addEntry_spec, IH; reflexivity. }
      specialize (Hcats pairs st).
      destruct (forOf pairs _ st) as [[[]|msg] st']; exact Hcats.
  - intros entry tick; repeat split.
    unfold Scan.kakeiboEntry, JS.orElse; simpl.
    destruct (suggestedCategory entry) as [s|]; [|discriminate].
    destruct (String.eqb_spec s ""); [discriminate | assumption].
Qed.

(** ** The screens agree on the month's total *)

(** X18. For a current month of 1..12 and one state of the store, the
    total on the home screen, the total on the analytics screen and the
    last point of the trend series are the same number, and the two screens
    count the same number of entries. *)
Theorem screens_show_same_total (newDate : string -> option JS.Date)
    (clock : nat -> string) (y m : Z) (state : Home.State) (st : AsyncStorage) :
  1 <= m <= 12 ->
  exists summary monthlyEntries loadedCategories trend,
    Home.monthlySummary (fst (Home.loadData newDate clock y m state st))
    = Some summary
    /\ fst (Analytics.loadData newDate clock y m st)
       = Resolved (loadedCategories, monthlyEntries)
    /\ fst (Analytics.getMonthlyTrendData newDate y m st) = Resolved trend
    /\ totalAmount summary = Analytics.shownTotal monthlyEntries
    /\ List.last (Analytics.data trend) 0 = totalAmount summary
    /\ entryCount summary = List.length monthlyEntries
    /\ Home.categories (fst (Home.loadData newDate clock y m state st))
       = loadedCategories.
Proof.
  intros Hm.
  unfold Home.loadData, Analytics.loadData, await.
  rewrite loadEntries_spec, !loadCategories_spec, !getEntriesByMonth_spec.
  unfold Analytics.getMonthlyTrendData.
  rewrite (trendLoop_spec newDate y m st Hm) by (repeat constructor; lia).
  cbn [fst snd resolve storedEntries ENTRIES].
  do 4 eexists; repeat split.
  cbn [List.map List.app Analytics.data List.last].
  unfold monthTotal.
  assert (Hzero : monthsBefore y m 0 = (y, m)).
  { rewrite <- (wrap_monthsBefore y m 0) by lia.
    destruct (Z.leb_spec (m - 0) 0); [lia | f_equal; lia]. }
  rewrite Hzero; cbn [fst snd]; fold (storedEntries st).
  symmetry; apply sumAmounts_sumZ.
Qed.

Lemma screens_show_same_total_witness :
  exists summary monthlyEntries loadedCategories trend,
    Home.monthlySummary
      (fst (Home.loadData Sample.newDate Sample.clock 2026 1
              {| Home.entries := []; Home.categories := [];
                 Home.monthlySummary := None |} Sample.store))
    = Some summary
    /\ fst (Analytics.loadData Sample.newDate Sample.clock 2026 1
              Sample.store)
       = Resolved (loadedCategories, monthlyEntries)
    /\ fst (Analytics.getMonthlyTrendData Sample.newDate 2026 1 Sample.store)
       = Resolved trend
    /\ totalAmount summary = Analytics.shownTotal monthlyEntries
    /\ List.last (Analytics.data trend) 0 = totalAmount summary
    /\ entryCount summary = List.length monthlyEntries
    /\ Home.categories
         (fst (Home.loadData Sample.newDate Sample.clock 2026 1
                 {| Home.entries := []; Home.categories := [];
                    Home.monthlySummary := None |} Sample.store))
       = loadedCategories.
Proof.
  apply (screens_show_same_total Sample.newDate Sample.clock
           2026 1 _ Sample.store); lia.
Defined.

(** ** The home screen's lists *)

(** X19. The list under 最近のスキャン shows the first three stored entries.
    As [addEntry] appends, these are the three oldest: once the store holds
    three entries, adding another changes nothing in that list. *)
Theorem recentScans_shows_oldest (entry : KakeiboEntry)
    (categories : list Category) (st : AsyncStorage) :
  (3 <= List.length (storedEntries st))%nat ->
  Home.recentScans (storedEntries (snd (Storage.addEntry entry st))) categories
  = Home.recentScans (storedEntries st) categories
  /\ List.length (Home.recentScans (storedEntries st) categories) = 3%nat.
Proof.
  intros Hlen; rewrite addEntry_spec; cbn [snd]; rewrite storedEntries_saved.
  unfold Home.recentScans; rewrite length_map, firstn_app.
  replace (3 - List.length (storedEntries st))%nat with 0%nat by lia.
  rewrite firstn_O, app_nil_r; split; [reflexivity|].
  apply firstn_length_le; exact Hlen.
Qed.

Lemma recentScans_shows_oldest_witness :
  Home.recentScans
    (storedEntries
       (snd (Storage.addEntry (Sample.entry "e4" "default_0" 900)
               {| ENTRIES := Some (Sample.halfKnown ++ Sample.withRefund)%list;
                  CATEGORIES := Some Sample.categories;
                  LAST_SYNC := None |})))
    Sample.categories
  = Home.recentScans (Sample.halfKnown ++ Sample.withRefund)%list
      Sample.categories.
Proof.
  refine (proj1 (recentScans_shows_oldest (Sample.entry "e4" "default_0" 900)
                   Sample.categories
                   {| ENTRIES := Some (Sample.halfKnown ++ Sample.withRefund)%list;
                      CATEGORIES := Some Sample.categories;
                      LAST_SYNC := None |} _)).
  simpl; lia.
Defined.

(** ** When the trend chart is drawn *)

Lemma sumZ_positive_iff (l : list Z) :
  Forall (fun x => 0 <= x) l -> (0 < sumZ l <-> exists x, In x l /\ 0 < x).
Proof.
  induction 1 as [|y l Hy Hl IH]; simpl.
  - split; [lia | intros [x [[] _]]].
  - pose proof (sumZ_nonneg l Hl); split.
    + intros Hpos; destruct (Z.ltb_spec 0 y) as [Hy0|Hy0].
      * exists y; split; [now left | exact Hy0].
      * destruct (proj1 IH ltac:(lia)) as [x [Hin Hx]].
        exists x; split; [now right | exact Hx].
    + intros [x [[->|Hin] Hx]]; [lia|].
      assert (0 < sumZ l) by (apply IH; now exists x); lia.
Qed.

Lemma offsets_In (k : Z) : In k [5; 4; 3; 2; 1; 0] <-> 0 <= k <= 5.
Proof.
  simpl; split; [intros H; repeat (destruct H as [<-|H]; [lia|]); contradiction|].
  intros Hk.
  assert (H : k = 5 \/ k = 4 \/ k = 3 \/ k = 2 \/ k = 1 \/ k = 0) by lia.
  intuition.
Qed.

(** X21. For a current month of 1..12 and stored amounts that are not
    negative, the bar chart of the trend is drawn exactly when the store
    holds an entry with an amount above 0 whose date parses and falls in one
    of the six months up to the current one. *)
Theorem trend_chart_drawn_iff (newDate : string -> option JS.Date) (y m : Z)
    (st : AsyncStorage) :
  1 <= m <= 12 -> NonNegative (storedEntries st) ->
  exists trend,
    fst (Analytics.getMonthlyTrendData newDate y m st) = Resolved trend
    /\ (Analytics.showsTrendChart trend = true
        <-> exists e k,
              In e (storedEntries st) /\ 0 < Entry.amount e /\ 0 <= k <= 5
              /\ Storage.inMonth newDate (fst (monthsBefore y m k))
                                 (snd (monthsBefore y m k)) e = true).
Proof.
  intros Hm Hnn; unfold Analytics.getMonthlyTrendData.
  rewrite (trendLoop_spec newDate y m st Hm) by (repeat constructor; lia).
  eexists; split; [reflexivity|].
  unfold Analytics.showsTrendChart; cbn [Analytics.data List.app].
  rewrite andb_true_iff, existsb_exists.
  assert (Hmonth : forall k,
             0 < monthTotal newDate st (monthsBefore y m k)
             <-> exists e, In e (storedEntries st) /\ 0 < Entry.amount e
                           /\ Storage.inMonth newDate (fst (monthsBefore y m k))
                                 (snd (monthsBefore y m k)) e = true).
  { intros k; unfold monthTotal; rewrite sumZ_positive_iff.
    - split.
      + intros [x [Hin Hx]]; apply in_map_iff in Hin.
        destruct Hin as [e [<- He]]; apply filter_In in He.
        exists e; tauto.
      + intros [e (Hin & Hpos & Hmon)]; exists (Entry.amount e); split;
          [|exact Hpos].
        apply in_map, filter_In; now split.
    - apply Forall_forall; intros x Hx; apply in_map_iff in Hx.
      destruct Hx as [e [<- He]]; apply filter_In in He.
      unfold NonNegative in Hnn; rewrite Forall_forall in Hnn; now apply Hnn. }
  split.
  - intros [_ [v [Hin Hpos]]]; apply in_map_iff in Hin.
    destruct Hin as [k [<- Hk]]; apply offsets_In in Hk.
    apply Z.ltb_lt, Hmonth in Hpos; destruct Hpos as [e He].
    exists e, k; tauto.
  - intros [e [k (Hin & Hpos & Hk & Hmon)]]; split; [reflexivity|].
    exists (monthTotal newDate st (monthsBefore y m k)); split.
    + apply (in_map (fun i => monthTotal newDate st (monthsBefore y m i))).
      now apply offsets_In.
    + apply Z.ltb_lt, Hmonth; now exists e.
Qed.

Lemma trend_chart_drawn_iff_witness :
  exists trend,
    fst (Analytics.getMonthlyTrendData Sample.newDate 2026 3 Sample.store)
    = Resolved trend
    /\ Analytics.showsTrendChart trend = true.
Proof.
  destruct (trend_chart_drawn_iff Sample.newDate 2026 3 Sample.store
              ltac:(lia) ltac:(repeat constructor; simpl; lia))
    as [trend [Htrend Hiff]].
  exists trend; split; [exact Htrend|].
  apply Hiff; exists (Sample.entry "e1" "default_0" 500), 2.
  repeat split; try lia; now left.
Defined.
